(** * Representative-station selection and period aggregation

    A shallow embedding of [src/data/NOAA/rep_station.py]: the request helper
    [req_json], the year slicer [year_slices], the selector
    [pick_representative_station], the aggregator [daily_to_period_station]
    and the per-region body of [main].

    Conventions of the embedding:
    - a [datetime.date] (and a normalized pandas [Timestamp]) is a record of
      year, month and day, compared field by field as Python compares dates;
      differences of dates go through proleptic Gregorian ordinals;
    - a missing value ([NaN], [NaT], [None]) is [None];
    - floating-point numbers are rationals ([Q]): rounding is not modelled;
    - a data frame is the list of its rows, in row order;
    - the remote service and the file system are explicit: the replies of the
      service are arguments of the functions that call it, and the files are
      a finite map together with the log of the writes. *)

From Stdlib Require Import ZArith QArith Qpower Lia Lqa.
From stdpp Require Import base list list_numbers sorting strings pretty gmap.

Local Open Scope Z_scope.

(** ** Calendar dates *)

Record date := mkdate { year : Z; month : Z; day : Z }.

Global Instance date_eq_dec : EqDecision date.
Proof. solve_decision. Defined.

Definition date_compare (a b : date) : comparison :=
  match year a ?= year b with
  | Eq => match month a ?= month b with
          | Eq => day a ?= day b
          | c => c
          end
  | c => c
  end.

Definition date_ltb (a b : date) : bool :=
  match date_compare a b with Lt => true | _ => false end.
Definition date_leb (a b : date) : bool :=
  match date_compare a b with Gt => false | _ => true end.

(** Python's [max(a, b)] and [min(a, b)]: the first argument is kept unless
    the second is strictly greater (resp. smaller). *)
Definition date_max (a b : date) : date := if date_ltb a b then b else a.
Definition date_min (a b : date) : date := if date_ltb b a then b else a.

(** [datetime.date] arithmetic ([_is_leap], [_days_before_year],
    [_days_before_month], [_ymd2ord], [_ord2ymd] of CPython's datetime). *)
Definition is_leap (y : Z) : bool :=
  (y mod 4 =? 0) && (negb (y mod 100 =? 0) || (y mod 400 =? 0)).

Definition days_before_year (y : Z) : Z :=
  let y := y - 1 in y * 365 + y / 4 - y / 100 + y / 400.

Definition DAYS_IN_MONTH (m : Z) : Z :=
  match m with
  | 1 => 31 | 2 => 28 | 3 => 31 | 4 => 30 | 5 => 31 | 6 => 30
  | 7 => 31 | 8 => 31 | 9 => 30 | 10 => 31 | 11 => 30 | 12 => 31
  | _ => -1
  end.

Definition DAYS_BEFORE_MONTH (m : Z) : Z :=
  match m with
  | 1 => 0 | 2 => 31 | 3 => 59 | 4 => 90 | 5 => 120 | 6 => 151
  | 7 => 181 | 8 => 212 | 9 => 243 | 10 => 273 | 11 => 304 | 12 => 334
  | _ => -1
  end.

Definition days_before_month (y m : Z) : Z :=
  DAYS_BEFORE_MONTH m + (if (2 <? m) && is_leap y then 1 else 0).

Definition days_in_month (y m : Z) : Z :=
  if (m =? 2) && is_leap y then 29 else DAYS_IN_MONTH m.

Definition toordinal (d : date) : Z :=
  days_before_year (year d) + days_before_month (year d) (month d) + day d.

(** The month and the day of the [n]-th day (from 0) of a year, as
    [_ord2ymd] finds them: an estimate of the month, corrected when it is one
    too far. *)
Definition month_day (leapyear : bool) (n : Z) : Z * Z :=
  let m := Z.shiftr (n + 50) 5 in
  let preceding :=
    DAYS_BEFORE_MONTH m + (if (2 <? m) && leapyear then 1 else 0) in
  if n <? preceding then
    let m := m - 1 in
    let preceding :=
      preceding
      - (DAYS_IN_MONTH m + (if (m =? 2) && leapyear then 1 else 0)) in
    (m, n - preceding + 1)
  else (m, n - preceding + 1).

Definition fromordinal (n : Z) : date :=
  let n := n - 1 in
  let n400 := n / 146097 in let n := n mod 146097 in
  let n100 := n / 36524 in let n := n mod 36524 in
  let n4 := n / 1461 in let n := n mod 1461 in
  let n1 := n / 365 in let n := n mod 365 in
  let y := n400 * 400 + 1 + n100 * 100 + n4 * 4 + n1 in
  if (n1 =? 4) || (n100 =? 4) then mkdate (y - 1) 12 31
  else
    let leapyear := (n1 =? 3) && (negb (n4 =? 24) || (n100 =? 3)) in
    let '(m, dd) := month_day leapyear n in
    mkdate y m dd.

(** The check that [month_day] decodes day [n] of a year: a month from 1 to
    12 and a day from 1 on that add up to [n]. *)
Definition month_day_ok (leapyear : bool) (n : Z) : bool :=
  let '(m, dd) := month_day leapyear n in
  (1 <=? m) && (m <=? 12) && (1 <=? dd) &&
  (DAYS_BEFORE_MONTH m + (if (2 <? m) && leapyear then 1 else 0) + dd =? n + 1).

(** [date.weekday()]: Monday is 0, Sunday is 6. *)
Definition weekday (d : date) : Z := (toordinal d + 6) mod 7.

(** A valid [datetime.date]. *)
Definition valid_date (d : date) : Prop :=
  1 <= year d <= 9999 /\ 1 <= month d <= 12 /\
  1 <= day d <= days_in_month (year d) (month d).

(** ** [year_slices] *)

Definition start_limit : date := mkdate 2002 1 1.
Definition end_limit : date := mkdate 2025 12 31.

(** Python's [range(a, b)]. *)
Definition range (a b : Z) : list Z := seqZ a (b - a).

(** The body of the [for y in range(...)] loop: one [append] per year. *)
Definition slice_of_year (start end_ : date) (y : Z) : date * date :=
  let ys := mkdate y 1 1 in
  let ye := mkdate y 12 31 in
  let ys := if y =? year start then start else ys in
  let ye := if y =? year end_ then end_ else ye in
  (ys, ye).

Definition year_slices (mind maxd : option date) : list (date * date) :=
  match mind, maxd with
  | Some mind, Some maxd =>
      if date_ltb maxd mind then []
      else
        let start := date_max mind start_limit in
        let end_ := date_min maxd end_limit in
        if date_ltb end_ start then []
        else
          fold_left (fun slices y => slices ++ [slice_of_year start end_ y])
                    (range (year start) (year end_ + 1)) []
  | _, _ => []
  end.


(** ** Period bucketing (pandas [to_period(...)] followed by [start_time])

    pandas keeps a timestamp as a count from 1970-01-01 and a weekly period as
    a week number; [W-MON] is its weekly frequency whose weeks END on Monday
    (period code 4001, week-end day [4001 - 4000 = 1]).  From
    [pandas/_libs/tslibs/period.pyx]:
    - [unix_date_to_week(unix_date, to_end) = (unix_date + 3 - to_end) // 7 + 1]
    - [asfreq_WtoDT(ordinal)
         = ordinal * 7 + from_end - 4 + (7 - 1) * (is_end - 1)],
      with [is_end = 0] for [start_time]. *)

Definition UNIX_EPOCH_ORDINAL : Z := 719163.   (* date(1970,1,1).toordinal() *)

Definition unix_date (d : date) : Z := toordinal d - UNIX_EPOCH_ORDINAL.
Definition date_of_unix (u : Z) : date := fromordinal (u + UNIX_EPOCH_ORDINAL).

Definition unix_date_to_week (unix_date to_end : Z) : Z :=
  (unix_date + 3 - to_end) / 7 + 1.

Definition asfreq_WtoDT (ordinal from_end is_end : Z) : Z :=
  ordinal * 7 + from_end - 4 + (7 - 1) * (is_end - 1).

(** Week-end day of the anchored weekly frequencies: [W-SUN] is 0, [W-MON] 1. *)
Definition W_SUN : Z := 0.
Definition W_MON : Z := 1.

(** [ts.to_period("W-<anchor>").start_time.normalize()] *)
Definition week_period_start (anchor : Z) (d : date) : date :=
  date_of_unix (asfreq_WtoDT (unix_date_to_week (unix_date d) anchor) anchor 0).

(** [ts.to_period("M").start_time.normalize()] *)
Definition month_period_start (d : date) : date :=
  mkdate (year d) (month d) 1.

Inductive freq := weekly | monthly.

(** Lines 201-208: the [period_start] column and the label of the period. *)
Definition period_start (f : freq) (d : date) : date :=
  match f with
  | weekly => week_period_start W_MON d
  | monthly => month_period_start d
  end.

Definition label_col (f : freq) : string :=
  match f with weekly => "week_start" | monthly => "month_start" end.


(** ** Frames: sorting, unique keys, positions *)

(** A stable sort (pandas sorts several keys with a stable sort, so rows that
    tie on every key keep their order): insertion from the right, each row
    placed before the first row it does not exceed. *)
Fixpoint insert_sorted {A} (leb : A -> A -> bool) (x : A) (l : list A)
    : list A :=
  match l with
  | [] => [x]
  | y :: l' => if leb x y then x :: l else y :: insert_sorted leb x l'
  end.

Definition stable_sort {A} (leb : A -> A -> bool) (l : list A) : list A :=
  foldr (insert_sorted leb) [] l.

(** The sorted distinct values of a column (group keys, pivot axes, the index
    of an outer join). *)
Definition sorted_unique {A} `{EqDecision A} (leb : A -> A -> bool)
    (l : list A) : list A :=
  stable_sort leb (remove_dups l).

(** Position of a label on an axis. *)
Definition index_of {A} `{EqDecision A} (x : A) (l : list A) : option nat :=
  fst <$> list_find (fun y => y = x) l.

Definition is_nil {A} (l : list A) : bool :=
  match l with [] => true | _ => false end.

(** ** Daily observations and the period aggregator *)

(** One row of the daily frame, with the date already parsed by
    [pd.to_datetime]; [o_value] is the measured number (the service sends a
    number with every observation, so no missing value is modelled). *)
Record obs := mkobs {
  o_date : date;
  o_datatype : string;
  o_station : string;
  o_attributes : string;
  o_value : Q
}.

(** A daily row with its [period_start] column. *)
Definition prow : Type := date * obs.

Definition group_key : Type := date * string.

Definition prow_key (r : prow) : group_key := (r.1, o_datatype r.2).

Definition group_key_leb (a b : group_key) : bool :=
  match date_compare a.1 b.1 with
  | Lt => true
  | Eq => String.leb a.2 b.2
  | Gt => false
  end.

(** [Series.sum()] and [Series.mean()] of a group. *)
Definition Qsum (l : list Q) : Q := fold_left Qplus l 0%Q.
Definition Qmean (l : list Q) : Q :=
  (Qsum l / inject_Z (Z.of_nat (length l)))%Q.

(** [d.groupby(["period_start","datatype"], as_index=False)["value"].agg()]:
    one row per distinct key, keys sorted, each with the reduction of the
    values of its rows in row order. *)
Definition groupby_agg (agg : list Q -> Q) (d : list prow)
    : list (group_key * Q) :=
  let keys := sorted_unique group_key_leb (prow_key <$> d) in
  (fun k => (k, agg ((fun r => o_value r.2) <$>
                       filter (fun r => prow_key r = k) d))) <$> keys.

(** A wide frame indexed by period: [w_values] holds one list per index entry,
    one cell per column, [None] being an empty cell. *)
Record wide := mkwide {
  w_index : list date;
  w_columns : list string;
  w_values : list (list (option Q))
}.

Definition wide_empty : wide := mkwide [] [] [].

(** [DataFrame.empty]: some axis has length 0. *)
Definition w_is_empty (w : wide) : bool :=
  is_nil (w_index w) || is_nil (w_columns w).

Definition w_cell (w : wide) (p : date) (c : string) : option Q :=
  i ← index_of p (w_index w);
  j ← index_of c (w_columns w);
  row ← w_values w !! i;
  mjoin (row !! j).

Definition lookup_key (g : list (group_key * Q)) (k : group_key) : option Q :=
  (fun e => e.2.2) <$> list_find (fun e => e.1 = k) g.

(** [g.pivot(index="period_start", columns="datatype", values="value")] *)
Definition pivot (g : list (group_key * Q)) : wide :=
  let idx := sorted_unique date_leb ((fun e => e.1.1) <$> g) in
  let cols := sorted_unique String.leb ((fun e => e.1.2) <$> g) in
  mkwide idx cols
         ((fun p => (fun c => lookup_key g (p, c)) <$> cols) <$> idx).

(** [left.join(right, how="outer")]: the sorted union of the two indexes, the
    columns of [left] then those of [right], cells of an absent side empty. *)
Definition join_outer (l r : wide) : wide :=
  let idx := sorted_unique date_leb (w_index l ++ w_index r) in
  mkwide idx (w_columns l ++ w_columns r)
         ((fun p => ((fun c => w_cell l p c) <$> w_columns l) ++
                    ((fun c => w_cell r p c) <$> w_columns r)) <$> idx).

(** The table returned to the caller: the header (label column first) and
    one row per period, the period then one cell per variable column. *)
Record period_table := mktable {
  pt_columns : list string;
  pt_rows : list (date * list (option Q))
}.

(** [pd.DataFrame()] *)
Definition empty_table : period_table := mktable [] [].

Definition pt_is_empty (t : period_table) : bool :=
  is_nil (pt_rows t) || is_nil (pt_columns t).

(** Lines 228-231: [reset_index], [rename], and [reindex] on
    [[label_col] + [v for v in wanted_vars if v in wide.columns]].
    Variable codes are taken to differ from the label name. *)
Definition reindex_columns (label : string) (w : wide)
    (wanted_vars : list string) : period_table :=
  let vars := filter (fun v => v ∈ w_columns w) wanted_vars in
  mktable (label :: vars)
          ((fun p => (p, (fun v => w_cell w p v) <$> vars)) <$> w_index w).

Definition sum_vars : list string := ["PRCP"; "SNOW"].

Definition daily_to_period_station (daily_df : list obs)
    (wanted_vars : list string) (f : freq) : period_table :=
  if is_nil daily_df then empty_table
  else
    let d := filter (fun o => o_datatype o ∈ wanted_vars) daily_df in
    if is_nil d then empty_table
    else
      let d : list prow := (fun o => (period_start f (o_date o), o)) <$> d in
      let mean_vars := list_difference wanted_vars sum_vars in
      let d_sum := filter (fun r : prow => o_datatype r.2 ∈ sum_vars) d in
      let wide_sum :=
        if is_nil d_sum then wide_empty else pivot (groupby_agg Qsum d_sum) in
      let d_mean := filter (fun r : prow => o_datatype r.2 ∈ mean_vars) d in
      let wide_mean :=
        if is_nil d_mean then wide_empty
        else pivot (groupby_agg Qmean d_mean) in
      if w_is_empty wide_sum && w_is_empty wide_mean then empty_table
      else
        let w :=
          if w_is_empty wide_sum then wide_mean
          else if w_is_empty wide_mean then wide_sum
          else join_outer wide_mean wide_sum in
        reindex_columns (label_col f) w wanted_vars.

(** The cell of a period row under a variable column. *)
Definition pt_cell (t : period_table) (p : date) (v : string) : option Q :=
  r ← list_find (fun r => r.1 = p) (pt_rows t);
  j ← index_of v (tail (pt_columns t));
  mjoin (r.2.2 !! j).

(** The daily values of variable [v] that fall in period [p]. *)
Definition bucket_values (daily_df : list obs) (f : freq) (p : date)
    (v : string) : list Q :=
  o_value
    <$> filter (fun o => period_start f (o_date o) = p /\ o_datatype o = v)
               daily_df.


(** Observations used as concrete inputs. *)
Definition ex_snwd : obs :=
  mkobs (mkdate 2024 1 3) "SNWD" "GHCND:USC00010001" ",,7," 4.

(** A daily frame used as a concrete input: January 2024 has precipitation
    and maximum temperature, February 2024 only maximum temperature, March
    2024 only snowfall. *)
Definition ex_daily : list obs :=
  [ mkobs (mkdate 2024 1 3) "PRCP" "GHCND:USC00010001" ",,7," (1 # 2);
    mkobs (mkdate 2024 1 3) "TMAX" "GHCND:USC00010001" ",,7," 10;
    mkobs (mkdate 2024 1 4) "TMAX" "GHCND:USC00010001" ",,7," 20;
    mkobs (mkdate 2024 1 4) "PRCP" "GHCND:USC00010001" ",,7," (1 # 4);
    mkobs (mkdate 2024 2 10) "TMAX" "GHCND:USC00010001" ",,7," 30;
    mkobs (mkdate 2024 2 11) "TMAX" "GHCND:USC00010001" ",,7," 33;
    mkobs (mkdate 2024 3 20) "SNOW" "GHCND:USC00010001" ",,7," 3;
    mkobs (mkdate 2024 3 21) "SNWD" "GHCND:USC00010001" ",,7," 5 ].

(** ** Stations and the representative-station selector *)

(** A row of the station catalog.  [mindate], [maxdate] and [datacoverage]
    are the columns after [pd.to_datetime(..., errors="coerce")] and
    [pd.to_numeric(..., errors="coerce")]: [None] is [NaT] or [NaN]. *)
Record station := mkstation {
  id : string;
  name : string;
  latitude : Q;
  longitude : Q;
  elevation : Q;
  mindate : option date;
  maxdate : option date;
  datacoverage : option Q
}.

(** Line 134: [(maxdate - mindate).dt.days.fillna(-1).astype(int)] *)
Definition span_days (s : station) : Z :=
  match mindate s, maxdate s with
  | Some mn, Some mx => toordinal mx - toordinal mn
  | _, _ => -1
  end.

(** Line 135: [id.str.startswith("GHCND:USW").astype(int)] *)
Definition is_usw (s : station) : Z :=
  if String.prefix "GHCND:USW" (id s) then 1 else 0.

Definition tol : Q := 1 # 1000000.

(** Ascending order of a datetime column, [NaT] last. *)
Definition mindate_compare (a b : option date) : comparison :=
  match a, b with
  | Some x, Some y => date_compare x y
  | Some _, None => Lt
  | None, Some _ => Gt
  | None, None => Eq
  end.

(** The order of [sort_values(by=["is_usw","span_days","mindate","id"],
    ascending=[False, False, True, True])]. *)
Definition select_compare (a b : station) : comparison :=
  match is_usw b ?= is_usw a with
  | Eq =>
      match span_days b ?= span_days a with
      | Eq =>
          match mindate_compare (mindate a) (mindate b) with
          | Eq => String.compare (id a) (id b)
          | c => c
          end
      | c => c
      end
  | c => c
  end.

Definition select_leb (a b : station) : bool :=
  match select_compare a b with Gt => false | _ => true end.

(** [_select]: sort, then [head(1)]. *)
Definition _select (df : list station) : list station :=
  if is_nil df then df else take 1 (stable_sort select_leb df).

(** Comparisons of a coverage column with a number; [NaN] compares false. *)
Definition cov_ge (c : option Q) (x : Q) : bool :=
  match c with Some q => Qle_bool x q | None => false end.

Definition cov_between (c : option Q) (lo hi : Q) : bool :=
  match c with Some q => Qle_bool lo q && Qle_bool q hi | None => false end.

(** [Series.max(skipna=True)]: [None] when every value is missing. *)
Definition cov_max (l : list (option Q)) : option Q :=
  fold_left (fun acc c =>
               match acc, c with
               | Some m, Some q => Some (if Qle_bool q m then m else q)
               | None, Some q => Some q
               | _, None => acc
               end) l None.

(** Lines 137-141: the candidate pool. *)
Definition candidates (stations : list station) (prefer_usw : bool)
    : list station :=
  if prefer_usw then
    let usw := filter (fun s => is_usw s = 1) stations in
    if is_nil usw then stations else usw
  else stations.

Definition pick_representative_station (stations : list station)
    (prefer_usw : bool) : list station :=
  if is_nil stations then stations
  else
    let cand := candidates stations prefer_usw in
    let cov1 :=
      filter (fun s => cov_ge (datacoverage s) (1 - tol)%Q = true) cand in
    if negb (is_nil cov1) then _select cov1
    else
      match cov_max (datacoverage <$> cand) with
      | None => _select cand
      | Some max_cov =>
          _select
            (filter (fun s => cov_between (datacoverage s) (max_cov - tol)%Q
                                          (max_cov + tol)%Q = true)
                    cand)
      end.


(** Stations used as concrete inputs. *)
Definition ex_full : station :=
  mkstation "GHCND:USC00010001" "FULL" 0 0 0
            (Some (mkdate 2000 1 1)) (Some (mkdate 2000 1 11)) (Some 1%Q).
Definition ex_usw_half : station :=
  mkstation "GHCND:USW00012345" "HALF" 0 0 0
            (Some (mkdate 2000 1 1)) (Some (mkdate 2000 1 11)) (Some (1 # 2)%Q).
Definition ex_nocov : station :=
  mkstation "GHCND:USC00010002" "NOCOV" 0 0 0 None None None.
Definition ex_late_a : station :=
  mkstation "GHCND:USC00000001" "LATE" 0 0 0
            (Some (mkdate 2001 1 1)) (Some (mkdate 2001 1 11)) (Some 1%Q).
Definition ex_early_b : station :=
  mkstation "GHCND:USC00000002" "EARLY" 0 0 0
            (Some (mkdate 2000 1 1)) (Some (mkdate 2000 1 11)) (Some 1%Q).
Definition ex_tie_1 : station :=
  mkstation "GHCND:USC00000001" "ONE" 0 0 0
            (Some (mkdate 2000 1 1)) (Some (mkdate 2000 1 11)) (Some 1%Q).
Definition ex_tie_2 : station :=
  mkstation "GHCND:USC00000002" "TWO" 0 0 0
            (Some (mkdate 2000 1 1)) (Some (mkdate 2000 1 11)) (Some 1%Q).

(** ** The request helper [req_json] *)

(** The exceptions that reach [req_json]. *)
Inductive exn :=
  | HTTPError (status : Z)   (* requests.HTTPError, a RequestException *)
  | Timeout                  (* requests.Timeout, a RequestException *)
  | ConnectionError          (* requests.ConnectionError, a RequestException *)
  | RequestException         (* any other requests.RequestException *)
  | JSONDecodeError          (* the ValueError raised by r.json() *)
  | RuntimeError             (* "Unknown error in req_json ..." *)
  | OtherException           (* any other Exception *)
  | KeyboardInterrupt.       (* a BaseException that is not an Exception *)

Global Instance exn_eq_dec : EqDecision exn.
Proof. solve_decision. Defined.

(** What the [except (Timeout, ConnectionError, RequestException)] clause
    catches. *)
Definition is_request_exception (e : exn) : bool :=
  match e with
  | HTTPError _ | Timeout | ConnectionError | RequestException => true
  | _ => false
  end.

(** The body of a response: blank text, text that parses to a JSON object
    (kept abstract as [J]), or text that does not parse. *)
Inductive body (J : Type) :=
  | Blank
  | Json (js : J)
  | Malformed.
Arguments Blank {J}.
Arguments Json {J} js.
Arguments Malformed {J}.

(** What one call of [requests.get] does. *)
Inductive reply (J : Type) :=
  | GetRaises (e : exn)
  | Response (status_code : Z) (text : body J).
Arguments GetRaises {J} e.
Arguments Response {J} status_code text.

Inductive result (A : Type) :=
  | Return (a : A)
  | Raise (e : exn).
Arguments Return {A} a.
Arguments Raise {A} e.

(** The state of the retry loop: the recorded exception and the attempts
    after which [backoff_sleep] was called. *)
Record req_state := mkreq {
  last_exc : option exn;
  slept : list Z
}.

Definition backoff_sleep (attempt : Z) (st : req_state) : req_state :=
  mkreq (last_exc st) (slept st ++ [attempt]).

Definition set_last_exc (e : exn) (st : req_state) : req_state :=
  mkreq (Some e) (slept st).

Definition RETRY : Z := 3.

Section req_json.
Context {J : Type}.
(** The empty dict [{}] returned for an empty result. *)
Variable empty_json : J.
(** The remote service: what the [attempt]-th call of [requests.get] does. *)
Variable get : Z -> reply J.
Variable max_retry : Z.

(** The [except (Timeout, ConnectionError, RequestException)] handler and
    the final [except BaseException: raise], for an exception [e] raised in
    the [try] block of attempt [attempt]; [continue_] is the rest of the
    loop. *)
Definition handle_exception (attempt : Z) (e : exn) (st : req_state)
    (continue_ : req_state -> result J * req_state) : result J * req_state :=
  if is_request_exception e then
    let st := set_last_exc e st in
    if attempt <? max_retry then continue_ (backoff_sleep attempt st)
    else (Raise e, st)
  else (Raise e, st).

(** The [for attempt in range(1, max_retry + 1)] loop and the statements
    after it. *)
Fixpoint req_loop (attempts : list Z) (st : req_state)
    : result J * req_state :=
  match attempts with
  | [] =>
      match last_exc st with
      | Some e => (Raise e, st)
      | None => (Raise RuntimeError, st)
      end
  | attempt :: rest =>
      match get attempt with
      | GetRaises e => handle_exception attempt e st (req_loop rest)
      | Response status_code text =>
          if status_code =? 429 then req_loop rest (backoff_sleep attempt st)
          else if bool_decide (status_code ∈ [500; 502; 503; 504]) then
            req_loop rest
              (backoff_sleep attempt (set_last_exc (HTTPError status_code) st))
          else if (400 <=? status_code) && (status_code <? 600) then
            (* r.raise_for_status() *)
            handle_exception attempt (HTTPError status_code) st (req_loop rest)
          else
            match text with
            | Blank => (Return empty_json, st)
            | Json js =>
                if status_code =? 204 then (Return empty_json, st)
                else (Return js, st)
            | Malformed =>
                if status_code =? 204 then (Return empty_json, st)
                else
                  (* except ValueError as e *)
                  let st := set_last_exc JSONDecodeError st in
                  if attempt <? max_retry
                  then req_loop rest (backoff_sleep attempt st)
                  else (Raise JSONDecodeError, st)
            end
      end
  end.

Definition req_json : result J * req_state :=
  req_loop (range 1 (max_retry + 1)) (mkreq None []).

(** The failure met by an attempt, if it met one: the exception raised, or
    the error the status or the body stands for. *)
Definition failure_of (r : reply J) : option exn :=
  match r with
  | GetRaises e => Some e
  | Response status_code text =>
      if (400 <=? status_code) && (status_code <? 600)
      then Some (HTTPError status_code)
      else match text with
           | Malformed =>
               if status_code =? 204 then None else Some JSONDecodeError
           | _ => None
           end
  end.
End req_json.


(** An attempt that fails in a way the loop retries. *)
Definition retried {J} (r : reply J) : bool :=
  match r with
  | GetRaises e => is_request_exception e
  | _ => bool_decide (is_Some (failure_of r))
  end.

Definition rate_limited {J} (r : reply J) : bool :=
  match r with
  | Response status_code _ => status_code =? 429
  | _ => false
  end.

(** Services used as concrete inputs: every call is rate-limited; a 503
    followed by rate-limit replies. *)
Definition ex_always_429 : Z -> reply string :=
  fun _ => Response 429 Blank.
Definition ex_503_then_429 : Z -> reply string :=
  fun attempt =>
    if attempt =? 1 then Response 503 Blank else Response 429 Blank.

(** Two rate-limit replies, then a timeout. *)
Definition ex_429_then_timeout : Z -> reply string :=
  fun attempt => if attempt =? 3 then GetRaises Timeout else Response 429 Blank.

(** ** The per-region body of [main] *)

(** What [except Exception] catches. *)
Definition is_exception (e : exn) : bool :=
  match e with KeyboardInterrupt => false | _ => true end.

(** The CSV files of a run, by what they hold. *)
Inductive file :=
  | StationsCsv (rows : list station)  (* stations_meta.csv *)
  | SelectedCsv (rows : list station)  (* selected_station.csv *)
  | DailyCsv (rows : list obs)         (* parts/<id>_<year>.csv *)
  | PeriodCsv (t : period_table).      (* <freq>_selected_station.csv *)

(** The file system, and the log of the [to_csv] calls in order. *)
Record world := mkworld {
  files : gmap string file;
  written : list (string * file)
}.

Definition to_csv (path : string) (f : file) (w : world) : world :=
  mkworld (<[path := f]> (files w)) (written w ++ [(path, f)]).

(** [already_done]: the file exists and is not empty (a CSV file always has
    its header line). *)
Definition already_done (path : string) (w : world) : bool :=
  bool_decide (is_Some (files w !! path)).

(** [pd.read_csv] of a per-year file. *)
Definition read_csv (f : file) : list obs :=
  match f with DailyCsv rows => rows | _ => [] end.

Record args := mkargs {
  outdir : string;
  vars : list string;
  a_freq : freq;
  prefer_usw : bool;
  save_raw : bool;
  resume : bool
}.

Inductive region_status :=
  | ListFailed (e : exn)     (* [WARN] stations list failed *)
  | NoStations               (* [INFO] No stations *)
  | NoRepresentative         (* [INFO] No representative station selected *)
  | NoDaily                  (* [INFO] No daily data *)
  | AggEmpty                 (* [INFO] aggregation empty *)
  | Done                     (* [DONE] *)
  | Aborted (e : exn).       (* an exception leaves [main] *)

Fixpoint replace_colon (s : string) : string :=
  match s with
  | EmptyString => EmptyString
  | String c s' =>
      String (if Ascii.eqb c (Ascii.ascii_of_nat 58) (* ":" *)
              then Ascii.ascii_of_nat 95 (* "_" *) else c)
             (replace_colon s')
  end.

Definition state_dir (a : args) (fips : string) : string :=
  outdir a +:+ "/FIPS_" +:+ fips.
Definition meta_path (a : args) (fips : string) : string :=
  state_dir a fips +:+ "/stations_meta.csv".
Definition rep_path (a : args) (fips : string) : string :=
  state_dir a fips +:+ "/selected_station.csv".
Definition part_path (a : args) (fips : string) (sel : station) (y : Z)
    : string :=
  state_dir a fips +:+ "/parts/" +:+ replace_colon (id sel) +:+ "_"
    +:+ pretty y +:+ ".csv".
Definition out_name (f : freq) : string :=
  match f with
  | weekly => "weekly_selected_station.csv"
  | monthly => "monthly_selected_station.csv"
  end.
Definition out_path (a : args) (fips : string) : string :=
  state_dir a fips +:+ "/" +:+ out_name (a_freq a).

Section region.
(** The remote service as seen by [main]: what
    [list_stations_for_state] and [fetch_station_year] return or raise. *)
Variable list_stations_for_state :
  string -> list string -> result (list station).
Variable fetch_station_year :
  string -> date -> date -> list string -> result (list obs).
(** What [year_slices] does when the selected station has a [NaT] date
    (it is given [NaT], not [None]); left open. *)
Variable year_slices_NaT : result (list (date * date)).

Variable a : args.
Variable fips : string.

(** Lines 294-314: the loop over the year slices of the selected station. *)
Fixpoint fetch_loop (sel : station) (slices : list (date * date))
    (per_year_paths : list string) (all_daily_parts : list (list obs))
    (w : world) : result (list string * list (list obs)) * world :=
  match slices with
  | [] => (Return (per_year_paths, all_daily_parts), w)
  | (ys, ye) :: rest =>
      let path := part_path a fips sel (year ys) in
      if resume a && already_done path w then
        fetch_loop sel rest (per_year_paths ++ [path]) all_daily_parts w
      else
        match fetch_station_year (id sel) ys ye (vars a) with
        | Raise e =>
            if is_exception e
            then fetch_loop sel rest per_year_paths all_daily_parts w
            else (Raise e, w)
        | Return df =>
            if is_nil df then
              if save_raw a then
                fetch_loop sel rest (per_year_paths ++ [path]) all_daily_parts
                           (to_csv path (DailyCsv df) w)
              else fetch_loop sel rest per_year_paths all_daily_parts w
            else if save_raw a then
              fetch_loop sel rest (per_year_paths ++ [path])
                         (all_daily_parts ++ [df])
                         (to_csv path (DailyCsv df) w)
            else
              fetch_loop sel rest per_year_paths (all_daily_parts ++ [df]) w
        end
  end.

(** Lines 317-320: the daily frame handed to the aggregator. *)
Definition merge_daily (per_year_paths : list string)
    (all_daily_parts : list (list obs)) (w : world) : list obs :=
  if resume a && save_raw a && negb (is_nil per_year_paths) then
    concat (omap (fun p => read_csv <$> files w !! p) per_year_paths)
  else concat all_daily_parts.

(** Lines 322-341: aggregation and the period file. *)
Definition aggregate_and_write (daily_df : list obs) (w : world)
    : region_status * world :=
  if is_nil daily_df then (NoDaily, w)
  else
    let agg := daily_to_period_station daily_df (vars a) (a_freq a) in
    if pt_is_empty agg then (AggEmpty, w)
    else (Done, to_csv (out_path a fips) (PeriodCsv agg) w).

(** Lines 289-341 for the selected row [sel] of [rep]. *)
Definition fetch_and_aggregate (sel : station) (w : world)
    : region_status * world :=
  let slices :=
    match mindate sel, maxdate sel with
    | Some mind, Some maxd => Return (year_slices (Some mind) (Some maxd))
    | _, _ => year_slices_NaT
    end in
  match slices with
  | Raise e => (Aborted e, w)
  | Return slices =>
      match fetch_loop sel slices [] [] w with
      | (Raise e, w) => (Aborted e, w)
      | (Return (per_year_paths, all_daily_parts), w) =>
          aggregate_and_write (merge_daily per_year_paths all_daily_parts w) w
      end
  end.

(** The body of [for fips in state_list] (lines 261-341). *)
Definition process_region (w : world) : region_status * world :=
  match list_stations_for_state fips (vars a) with
  | Raise e => if is_exception e then (ListFailed e, w) else (Aborted e, w)
  | Return stations =>
      if is_nil stations then (NoStations, w)
      else
        let w := to_csv (meta_path a fips) (StationsCsv stations) w in
        let rep := pick_representative_station stations (prefer_usw a) in
        match rep with
        | [] => (NoRepresentative, w)
        | sel :: _ =>
            let w := to_csv (rep_path a fips) (SelectedCsv rep) w in
            fetch_and_aggregate sel w
        end
  end.
End region.


(** The period-aggregate file among the files of a region. *)
Definition is_period_file (f : file) : bool :=
  match f with PeriodCsv _ => true | _ => false end.

(** A run used as a concrete input: the catalog of the region holds one
    station, whose ten days of data in January 2000 lie outside 2002-2025;
    nothing is cached. *)
Definition ex_args : args :=
  mkargs "ghcnd_out_rep" ["TMAX"; "PRCP"] weekly false false false.
Definition ex_list_stations : string -> list string -> result (list station) :=
  fun _ _ => Return [ex_full].
Definition ex_fetch
    : string -> date -> date -> list string -> result (list obs) :=
  fun _ _ _ _ => Return [].
Definition ex_world : world := mkworld ∅ [].

(** A second run: the station has data in January 2002 and the service
    returns one maximum temperature for each year slice. *)
Definition ex_station_2002 : station :=
  mkstation "GHCND:USC00010003" "Y2002" 0 0 0
            (Some (mkdate 2002 1 1)) (Some (mkdate 2002 1 11)) (Some 1%Q).
Definition ex_list_2002 : string -> list string -> result (list station) :=
  fun _ _ => Return [ex_station_2002].
Definition ex_fetch_tmax
    : string -> date -> date -> list string -> result (list obs) :=
  fun station_id ys _ _ => Return [mkobs ys "TMAX" station_id ",,7," 10].

(** What a reply that is not a retried failure makes [req_json] do: an
    exception that is not a request exception leaves the function, status
    204 or a blank body gives the empty dict, any other body its JSON. *)
Definition reply_result {J} (empty_json : J) (r : reply J) : result J :=
  match r with
  | GetRaises e => Raise e
  | Response status_code text =>
      match text with
      | Json js => if status_code =? 204 then Return empty_json else Return js
      | _ => Return empty_json
      end
  end.

(** The delay of [backoff_sleep] (line 54):
    [min(30.0, 0.5 * (2 ** (attempt - 1))) + random.uniform(0, 0.3)], the
    random draw being the argument [jitter]. *)
Definition backoff_delay (attempt : Z) (jitter : Q) : Q :=
  let d := ((1 # 2) * Qpower 2 (attempt - 1))%Q in
  ((if Qle_bool 30 d then 30 else d) + jitter)%Q.

(** The time slept by a call, given the draw of each attempt. *)
Definition total_backoff (jitter : Z -> Q) (slept : list Z) : Q :=
  fold_right (fun attempt acc => (backoff_delay attempt (jitter attempt) + acc)%Q)
             0%Q slept.

(** ** Paged requests: [list_stations_for_state] and [fetch_station_year] *)

Definition PAGE_LIMIT : Z := 1000.

(** [js.get("results", []) if js else []], a JSON object being the map of
    its list-valued members. *)
Definition results_of {A} (js : gmap string (list A)) : list A :=
  default [] (js !! "results").

(** The [while True] loop of both functions.  [request offset] is what
    [req_json] returns or raises for the page starting at [offset]; the
    state of the loop is [rows], [offset] and the log of the offsets
    requested.  The loop has no bound of its own: [None] stands for a run
    that is still going after [fuel] requests. *)
Fixpoint paginate {A} (fuel : nat)
    (request : Z -> result (gmap string (list A)))
    (rows : list A) (offset : Z) (requested : list Z)
    : option (result (list A)) * list Z :=
  match fuel with
  | O => (None, requested)
  | S fuel =>
      match request offset with
      | Raise e => (Some (Raise e), requested ++ [offset])
      | Return js =>
          let res := results_of js in
          if is_nil res then (Some (Return rows), requested ++ [offset])
          else paginate fuel request (rows ++ res) (offset + PAGE_LIMIT)
                        (requested ++ [offset])
      end
  end.

(** [DataFrame.drop_duplicates(subset=...)]: the first row of each key is
    kept, in row order; [seen] holds the keys met so far. *)
Fixpoint drop_duplicates_from {A K} `{EqDecision K} (subset : A -> K)
    (seen : list K) (df : list A) : list A :=
  match df with
  | [] => []
  | r :: df =>
      if bool_decide (subset r ∈ seen) then drop_duplicates_from subset seen df
      else r :: drop_duplicates_from subset (subset r :: seen) df
  end.

Definition drop_duplicates {A K} `{EqDecision K} (subset : A -> K)
    (df : list A) : list A :=
  drop_duplicates_from subset [] df.

(** Lines 109-123.  The rows of the service are taken with their two date
    columns already coerced ([None] for a date that does not parse). *)
Definition list_stations_for_state (fuel : nat)
    (request : Z -> result (gmap string (list station)))
    : option (result (list station)) * list Z :=
  match paginate fuel request [] 1 [] with
  | (Some (Return rows), requested) =>
      (Some (Return (if is_nil rows then [] else drop_duplicates id rows)),
       requested)
  | r => r
  end.

(** Lines 167-180. *)
Definition fetch_station_year (fuel : nat)
    (request : Z -> result (gmap string (list obs)))
    : option (result (list obs)) * list Z :=
  paginate fuel request [] 1 [].

(** The rows of the page at [offset], when the request succeeds. *)
Definition page {A} (request : Z -> result (gmap string (list A)))
    (offset : Z) : list A :=
  match request offset with
  | Return js => results_of js
  | Raise _ => []
  end.

(** The offset of the [i]-th page. *)
Definition offset_of (i : Z) : Z := 1 + PAGE_LIMIT * i.

(** The first [n] requests succeed with rows. *)
Definition full_pages {A} (request : Z -> result (gmap string (list A)))
    (n : nat) : Prop :=
  forall i, 0 <= i < Z.of_nat n ->
    exists js, request (offset_of i) = Return js /\ results_of js <> [].

(** Services used as concrete inputs: two pages of rows, then an empty
    dict; for the catalog the second page repeats a station of the first. *)
Definition ex_data_pages : Z -> result (gmap string (list obs)) :=
  fun offset =>
    if offset =? 1 then
      Return {["results" := [mkobs (mkdate 2002 1 1) "TMAX" "S" "" 10;
                             mkobs (mkdate 2002 1 2) "TMAX" "S" "" 12]]}
    else if offset =? 1001 then
      Return {["results" := [mkobs (mkdate 2002 1 3) "TMAX" "S" "" 14]]}
    else Return ∅.
Definition ex_station_pages : Z -> result (gmap string (list station)) :=
  fun offset =>
    if offset =? 1 then Return {["results" := [ex_full; ex_usw_half]]}
    else if offset =? 1001 then Return {["results" := [ex_full; ex_nocov]]}
    else Return ∅.
(** A catalog whose second page cannot be fetched. *)
Definition ex_station_pages_timeout
    : Z -> result (gmap string (list station)) :=
  fun offset =>
    if offset =? 1 then Return {["results" := [ex_full]]} else Raise Timeout.


(** The year slices whose request returns a frame, each with its frame, in
    slice order. *)
Definition fetched
    (fetch_station_year :
       string -> date -> date -> list string -> result (list obs))
    (a : args) (sel : station) (slices : list (date * date))
    : list ((date * date) * list obs) :=
  omap (fun s : date * date =>
          match fetch_station_year (id sel) s.1 s.2 (vars a) with
          | Return df => Some (s, df)
          | Raise _ => None
          end) slices.

(** ** Vocabulary of the statements *)

(** The order on dates, as propositions. *)
Definition date_le (a b : date) : Prop := date_leb a b = true.
Definition date_lt (a b : date) : Prop := date_ltb a b = true.

(** A date lies in a slice. *)
Definition in_slice (d : date) (s : date * date) : Prop :=
  date_le s.1 d /\ date_le d s.2.

(** A three-way comparison that is a strict total order with [Eq] only on
    equal keys. *)
Class OrderCmp {K : Type} (cmp : K -> K -> comparison) : Prop := {
  cmp_opp x y : cmp y x = CompOpp (cmp x y);
  cmp_eq x y : cmp x y = Eq -> x = y;
  cmp_lt_trans x y z : cmp x y = Lt -> cmp y z = Lt -> cmp x z = Lt
}.

Arguments cmp_opp {K} cmp {_} x y.
Arguments cmp_eq {K} cmp {_} x y.
Arguments cmp_lt_trans {K} cmp {_} x y z.

Definition leb_of {K} (cmp : K -> K -> comparison) (x y : K) : bool :=
  match cmp x y with Gt => false | _ => true end.

Definition lex (c1 c2 : comparison) : comparison :=
  match c1 with Eq => c2 | c => c end.

Definition lex_cmp {K1 K2} (cmp1 : K1 -> K1 -> comparison)
    (cmp2 : K2 -> K2 -> comparison) (a b : K1 * K2) : comparison :=
  lex (cmp1 a.1 b.1) (cmp2 a.2 b.2).

(** The head of a list does not exceed any of its elements. *)
Definition head_least {A} (leb : A -> A -> bool) (l : list A) : Prop :=
  match l with
  | [] => True
  | w :: _ => forall x, x ∈ l -> leb w x = true
  end.

Definition sorted {A} (leb : A -> A -> bool) (l : list A) : Prop :=
  StronglySorted (fun x y => leb x y = true) l.

(** The sort key of [_select], and its order. *)
Definition select_key (s : station) : Z * (Z * (option date * string)) :=
  (is_usw s, (span_days s, (mindate s, id s))).

Definition key_compare
    : Z * (Z * (option date * string)) -> Z * (Z * (option date * string)) ->
      comparison :=
  lex_cmp (fun x y => y ?= x)
    (lex_cmp (fun x y => y ?= x) (lex_cmp mindate_compare String.compare)).

(** Coverage within [1e-6] of [1.0], for a coverage fraction (at most 1):
    the test of line 153. *)
Definition near_complete (s : station) : Prop :=
  cov_ge (datacoverage s) (1 - tol)%Q = true.

(** The order of [_select], spelled out: the preferred-network flag
    descending, then the span descending, then the start date ascending
    (missing last), then the identifier ascending. *)
Definition sorts_no_later (x y : station) : Prop :=
  is_usw x > is_usw y \/
  (is_usw x = is_usw y /\
   (span_days x > span_days y \/
    (span_days x = span_days y /\
     (mindate_compare (mindate x) (mindate y) = Lt \/
      (mindate x = mindate y /\ String.leb (id x) (id y) = true))))).

(** The values of the rows of a group, in row order. *)
Definition group_values (d : list prow) (k : group_key) : list Q :=
  (fun r : prow => o_value r.2) <$> filter (fun r => prow_key r = k) d.

(** The table cell as the specification words it: the sum of the daily
    values of the bucket for an accumulate variable, their mean for any other
    requested variable, nothing when the bucket has no value of the
    variable. *)
Definition spec_cell (daily_df : list obs) (wanted_vars : list string)
    (f : freq) (p : date) (v : string) : option Q :=
  if decide (v ∈ wanted_vars) then
    let vals := bucket_values daily_df f p v in
    if is_nil vals then None
    else Some (if decide (v ∈ sum_vars) then Qsum vals else Qmean vals)
  else None.

(** The periods of the requested observations. *)
Definition spec_periods (daily_df : list obs) (wanted_vars : list string)
    (f : freq) (p : date) : Prop :=
  exists o, o ∈ daily_df /\ o_datatype o ∈ wanted_vars /\
            period_start f (o_date o) = p.

(** The rows kept by line 195, with their period (lines 201-208). *)
Definition kept (daily_df : list obs) (wanted_vars : list string) (f : freq)
    : list prow :=
  (fun o => (period_start f (o_date o), o))
    <$> filter (fun o => o_datatype o ∈ wanted_vars) daily_df.

(** The rows of one reduction group, and its wide frame (lines 214-222). *)
Definition group_rows (daily_df : list obs) (wanted_vars : list string)
    (f : freq) (P : string -> Prop) `{!forall x, Decision (P x)} : list prow :=
  filter (fun r : prow => P (o_datatype r.2)) (kept daily_df wanted_vars f).

Definition wide_of (agg : list Q -> Q) (d : list prow) : wide :=
  if is_nil d then wide_empty else pivot (groupby_agg agg d).

Definition is_sum_var (v : string) : Prop := v ∈ sum_vars.
Definition is_mean_var (wanted_vars : list string) (v : string) : Prop :=
  v ∈ list_difference wanted_vars sum_vars.

Global Instance is_sum_var_dec (v : string) : Decision (is_sum_var v) | 1000.
Proof. unfold is_sum_var. apply _. Defined.
Global Instance is_mean_var_dec (wanted_vars : list string) (v : string)
  : Decision (is_mean_var wanted_vars v) | 1000.
Proof. unfold is_mean_var. apply _. Defined.

(** The wide frame that is reindexed (line 227). *)
Definition merged (daily_df : list obs) (wanted_vars : list string) (f : freq)
    : wide :=
  let wide_sum :=
    wide_of Qsum (group_rows daily_df wanted_vars f is_sum_var) in
  let wide_mean :=
    wide_of Qmean
            (group_rows daily_df wanted_vars f (is_mean_var wanted_vars)) in
  if w_is_empty wide_sum then wide_mean
  else if w_is_empty wide_mean then wide_sum
  else join_outer wide_mean wide_sum.

(** * Properties *)

(** ** The order on dates *)


Lemma date_leb_spec (a b : date) :
  date_leb a b = true <->
  year a < year b \/
  (year a = year b /\
   (month a < month b \/ (month a = month b /\ day a <= day b))).
Proof.
  unfold date_leb, date_compare.
  destruct (Z.compare_spec (year a) (year b));
    destruct (Z.compare_spec (month a) (month b));
    destruct (Z.compare_spec (day a) (day b)); split; intros; try done; lia.
Qed.

Lemma date_ltb_spec (a b : date) :
  date_ltb a b = true <->
  year a < year b \/
  (year a = year b /\
   (month a < month b \/ (month a = month b /\ day a < day b))).
Proof.
  unfold date_ltb, date_compare.
  destruct (Z.compare_spec (year a) (year b));
    destruct (Z.compare_spec (month a) (month b));
    destruct (Z.compare_spec (day a) (day b)); split; intros; try done; lia.
Qed.

Lemma date_ltb_false (a b : date) :
  date_ltb a b = false <-> date_leb b a = true.
Proof.
  rewrite date_leb_spec, <- not_true_iff_false, date_ltb_spec. lia.
Qed.

Lemma date_compare_eq (a b : date) : date_compare a b = Eq -> a = b.
Proof.
  destruct a, b. unfold date_compare; simpl.
  destruct (Z.compare_spec year0 year1); try done.
  destruct (Z.compare_spec month0 month1); try done.
  destruct (Z.compare_spec day0 day1); try done. by subst.
Qed.

(** Turns every date comparison in sight into linear arithmetic on the
    fields. *)
Ltac date_arith :=
  unfold date_le, date_lt, date_max, date_min in *;
  repeat match goal with
         | |- context [date_ltb ?a ?b] =>
             let E := fresh "E" in destruct (date_ltb a b) eqn:E
         | H : context [if date_ltb ?a ?b then _ else _] |- _ =>
             let E := fresh "E" in destruct (date_ltb a b) eqn:E
         end;
  repeat match goal with
         | H : date_ltb _ _ = false |- _ => rewrite date_ltb_false in H
         | H : date_ltb _ _ = true |- _ => rewrite date_ltb_spec in H
         | H : date_leb _ _ = true |- _ => rewrite date_leb_spec in H
         end;
  rewrite ?date_ltb_false, ?date_ltb_spec, ?date_leb_spec;
  simpl in *; try lia.

(** ** [year_slices] *)

Lemma fold_left_snoc {A B} (f : A -> B) (l : list A) (acc : list B) :
  fold_left (fun slices y => slices ++ [f y]) l acc = acc ++ (f <$> l).
Proof.
  revert acc. induction l as [|x l IH]; intros acc; simpl.
  - by rewrite app_nil_r.
  - rewrite IH. by rewrite <- app_assoc.
Qed.

(** The loop of [year_slices] read as a map over the years. *)
Lemma year_slices_unfold (mind maxd : date) :
  year_slices (Some mind) (Some maxd) =
  let start := date_max mind start_limit in
  let end_ := date_min maxd end_limit in
  if date_ltb maxd mind || date_ltb end_ start then []
  else slice_of_year start end_ <$>
         seqZ (year start) (year end_ - year start + 1).
Proof.
  unfold year_slices, range. simpl.
  destruct (date_ltb maxd mind); [done|]. simpl.
  destruct (date_ltb _ _); [done|].
  rewrite fold_left_snoc. simpl. f_equal. f_equal. lia.
Qed.

Lemma valid_date_fields (d : date) :
  valid_date d -> 1 <= month d <= 12 /\ 1 <= day d <= 31.
Proof.
  intros (_ & Hm & Hd). split; [done|].
  unfold days_in_month, DAYS_IN_MONTH in Hd.
  destruct (_ && _); [lia|].
  destruct d as [y m dd]; simpl in *.
  assert (Hc : m = 1 \/ m = 2 \/ m = 3 \/ m = 4 \/ m = 5 \/ m = 6 \/ m = 7 \/
               m = 8 \/ m = 9 \/ m = 10 \/ m = 11 \/ m = 12) by lia.
  repeat destruct Hc as [->|Hc]; try subst m; simpl in Hd; lia.
Qed.


(** C5. [year_slices] partitions by calendar year the intersection of
    [mindate, maxdate] with [2002-01-01, 2025-12-31]: an inverted range or an
    empty intersection gives no slice; otherwise there is one slice per year
    from the year of the intersected start to the year of the intersected end,
    in year order, slice [i] running from Jan 1 to Dec 31 of its year except
    that the first starts at the intersected start and the last ends at the
    intersected end; the slices cover exactly the dates of the intersection
    and no date lies in two of them; and
    [year_slices(2001-06-01, 2026-03-01)] is the 24 full years 2002 to 2025. *)
Theorem year_slices_partition (mind maxd : date) :
  valid_date mind -> valid_date maxd ->
  let start := date_max mind start_limit in
  let end_ := date_min maxd end_limit in
  let sl := year_slices (Some mind) (Some maxd) in
  (date_lt maxd mind \/ date_lt end_ start -> sl = []) /\
  (date_le mind maxd -> date_le start end_ ->
     length sl = Z.to_nat (year end_ - year start + 1) /\
     (forall (i : nat) (ys ye : date), sl !! i = Some (ys, ye) ->
        let y := year start + Z.of_nat i in
        ys = (if y =? year start then start else mkdate y 1 1) /\
        ye = (if y =? year end_ then end_ else mkdate y 12 31) /\
        year ys = y /\ year ye = y /\ date_le ys ye)) /\
  (forall d : date, valid_date d ->
     (date_le mind d /\ date_le d maxd /\
      date_le start_limit d /\ date_le d end_limit) <->
     (exists s, s ∈ sl /\ in_slice d s)) /\
  (forall (d : date) (s1 s2 : date * date),
     s1 ∈ sl -> s2 ∈ sl -> in_slice d s1 -> in_slice d s2 -> s1 = s2) /\
  year_slices (Some (mkdate 2001 6 1)) (Some (mkdate 2026 3 1)) =
    (fun y => (mkdate y 1 1, mkdate y 12 31)) <$> seqZ 2002 24.
Proof.
  intros Vmind%valid_date_fields Vmaxd%valid_date_fields start end_ sl.
  assert (Hsl : sl = if date_ltb maxd mind || date_ltb end_ start then []
                     else slice_of_year start end_ <$>
                            seqZ (year start) (year end_ - year start + 1))
    by apply year_slices_unfold.
  split; [|split; [|split; [|split]]].
  - intros [H|H]; rewrite Hsl; unfold date_lt in H; rewrite H; [done|].
    by rewrite orb_true_r.
  - intros H1 H2.
    assert (date_ltb maxd mind = false) as E1 by by apply date_ltb_false.
    assert (date_ltb end_ start = false) as E2 by by apply date_ltb_false.
    rewrite E1, E2 in Hsl. simpl in Hsl. rewrite Hsl. split.
    + by rewrite length_fmap, length_seqZ.
    + intros i ys ye Hi. rewrite list_lookup_fmap in Hi.
      destruct (seqZ _ _ !! i) as [y|] eqn:Ey; [|done].
      apply lookup_seqZ in Ey as [-> Hlt]. simpl in Hi.
      unfold slice_of_year in Hi. injection Hi as <- <-.
      set (y := year start + Z.of_nat i). simpl.
      assert (year start <= year end_) by (clear -H2; date_arith).
      repeat split; try done.
      * destruct (Z.eqb_spec y (year start)); [lia | done].
      * destruct (Z.eqb_spec y (year end_)); [lia | done].
      * assert (1 <= month start <= 12 /\ 1 <= day start <= 31 /\
                1 <= month end_ <= 12 /\ 1 <= day end_ <= 31).
        { subst start end_. clear -Vmind Vmaxd.
          unfold date_max, date_min, start_limit, end_limit.
          destruct (date_ltb _ _), (date_ltb _ _); simpl; lia. }
        destruct (Z.eqb_spec y (year start)), (Z.eqb_spec y (year end_));
          apply date_leb_spec; simpl; try lia.
        apply date_leb_spec in H2. lia.
  - intros d [Hm Hd]%valid_date_fields. rewrite Hsl. clear Hsl sl.
    assert (Hint : (date_le mind d /\ date_le d maxd /\
                    date_le start_limit d /\ date_le d end_limit) <->
                   (date_ltb maxd mind = false /\
                    date_le start d /\ date_le d end_)).
    { subst start end_. unfold start_limit, end_limit.
      split; [intros (?&?&?&?) | intros (?&?&?)]; repeat split; date_arith. }
    rewrite Hint. clear Hint. clearbody start end_.
    destruct (date_ltb maxd mind); simpl.
    { split; [by intros [? _] | intros (s&Hs&_); by apply elem_of_nil in Hs]. }
    destruct (date_ltb end_ start) eqn:E2; simpl.
    { split.
      - intros (_&?&?). exfalso. date_arith.
      - intros (s&Hs&_). by apply elem_of_nil in Hs. }
    split.
    + intros (_&Hs&He).
      exists (slice_of_year start end_ (year d)). split.
      * apply list_elem_of_fmap. exists (year d). split; [done|].
        apply elem_of_seqZ. date_arith.
      * unfold in_slice, slice_of_year. simpl.
        destruct (Z.eqb_spec (year d) (year start)),
                 (Z.eqb_spec (year d) (year end_)); split; try done;
          date_arith.
    + intros (s & Hs & Hin). split; [done|].
      apply list_elem_of_fmap in Hs as (y & -> & Hy).
      apply elem_of_seqZ in Hy.
      unfold in_slice, slice_of_year in Hin. simpl in Hin.
      destruct Hin as [Hi1 Hi2].
      destruct (Z.eqb_spec y (year start)), (Z.eqb_spec y (year end_));
        split; try done; date_arith.
  - intros d s1 s2. rewrite Hsl. clear Hsl sl. clearbody start end_.
    destruct (date_ltb maxd mind || date_ltb end_ start).
    { intros Hs. by apply elem_of_nil in Hs. }
    intros (y1 & -> & Hy1)%list_elem_of_fmap (y2 & -> & Hy2)%list_elem_of_fmap
           H1 H2.
    assert (forall y, in_slice d (slice_of_year start end_ y) -> year d = y)
      as Hyear.
    { intros y [Ha Hb]. unfold slice_of_year in *. simpl in *.
      destruct (Z.eqb_spec y (year start)), (Z.eqb_spec y (year end_));
        date_arith. }
    by rewrite <- (Hyear y1 H1), <- (Hyear y2 H2).
  - by vm_compute.
Qed.

(** C5, an instance: a range starting inside 2003 and ending inside 2005. *)
Lemma year_slices_partition_witness :
  year_slices (Some (mkdate 2003 6 1)) (Some (mkdate 2005 3 1)) =
    [ (mkdate 2003 6 1, mkdate 2003 12 31);
      (mkdate 2004 1 1, mkdate 2004 12 31);
      (mkdate 2005 1 1, mkdate 2005 3 1) ] /\
  length (year_slices (Some (mkdate 2003 6 1)) (Some (mkdate 2005 3 1)))
  = 3%nat.
Proof.
  split; [by vm_compute|].
  assert (V1 : valid_date (mkdate 2003 6 1)) by (repeat split; by vm_compute).
  assert (V2 : valid_date (mkdate 2005 3 1)) by (repeat split; by vm_compute).
  exact (proj1 (proj1 (proj2 (year_slices_partition
                               (mkdate 2003 6 1) (mkdate 2005 3 1) V1 V2))
                      eq_refl eq_refl)).
Defined.

(** ** Comparisons that are orders *)


Section order_cmp.
Context {K : Type} (cmp : K -> K -> comparison) `{!OrderCmp cmp}.

Lemma cmp_refl x : cmp x x = Eq.
Proof. pose proof (cmp_opp cmp x x) as H. destruct (cmp x x); done. Qed.

Lemma cmp_gt_lt x y : cmp x y = Gt <-> cmp y x = Lt.
Proof. rewrite (cmp_opp cmp x y). destruct (cmp x y); simpl; split; done. Qed.

Lemma leb_of_total x y : leb_of cmp x y = true \/ leb_of cmp y x = true.
Proof.
  unfold leb_of. rewrite (cmp_opp cmp x y). destruct (cmp x y); simpl; auto.
Qed.

Lemma leb_of_trans x y z :
  leb_of cmp x y = true -> leb_of cmp y z = true -> leb_of cmp x z = true.
Proof.
  unfold leb_of.
  destruct (cmp x y) eqn:E1; [|
    destruct (cmp y z) eqn:E2; [| |done] | done]; intros _.
  - apply (cmp_eq cmp) in E1 as ->. done.
  - apply (cmp_eq cmp) in E2 as <-. by rewrite E1.
  - by rewrite (cmp_lt_trans cmp x y z).
Qed.

(** The reversed comparison, for a descending sort key. *)
Lemma flip_OrderCmp : OrderCmp (fun x y => cmp y x).
Proof.
  split.
  - intros x y. apply (cmp_opp cmp).
  - intros x y H. symmetry. by apply (cmp_eq cmp).
  - intros x y z H1 H2. by apply (cmp_lt_trans cmp z y x).
Qed.
End order_cmp.

Lemma lex_OrderCmp {K1 K2} (cmp1 : K1 -> K1 -> comparison)
    (cmp2 : K2 -> K2 -> comparison) `{!OrderCmp cmp1} `{!OrderCmp cmp2} :
  OrderCmp (lex_cmp cmp1 cmp2).
Proof.
  split; unfold lex_cmp, lex.
  - intros [x1 x2] [y1 y2]; simpl.
    rewrite (cmp_opp cmp1 x1 y1), (cmp_opp cmp2 x2 y2).
    by destruct (cmp1 x1 y1).
  - intros [x1 x2] [y1 y2]; simpl.
    destruct (cmp1 x1 y1) eqn:E1; try done.
    intros E2. apply (cmp_eq cmp1) in E1. apply (cmp_eq cmp2) in E2.
    by subst.
  - intros [x1 x2] [y1 y2] [z1 z2]; simpl.
    destruct (cmp1 x1 y1) eqn:E1; try done;
      destruct (cmp1 y1 z1) eqn:E2; try done; intros H1 H2.
    + apply (cmp_eq cmp1) in E1, E2. subst. rewrite (cmp_refl cmp1).
      by apply (cmp_lt_trans cmp2 x2 y2 z2).
    + apply (cmp_eq cmp1) in E1. subst. by rewrite E2.
    + apply (cmp_eq cmp1) in E2. subst. by rewrite E1.
    + by rewrite (cmp_lt_trans cmp1 x1 y1 z1).
Qed.

Global Instance Z_OrderCmp : OrderCmp Z.compare.
Proof.
  split.
  - intros x y. apply Z.compare_antisym.
  - intros x y. apply Z.compare_eq.
  - intros x y z. rewrite !Z.compare_lt_iff. lia.
Qed.

Global Instance date_OrderCmp : OrderCmp date_compare.
Proof.
  split.
  - intros x y. unfold date_compare.
    rewrite (Z.compare_antisym (year x)), (Z.compare_antisym (month x)),
            (Z.compare_antisym (day x)).
    by destruct (year x ?= year y), (month x ?= month y).
  - apply date_compare_eq.
  - intros x y z H1 H2.
    assert (date_ltb x y = true) as L1 by (unfold date_ltb; by rewrite H1).
    assert (date_ltb y z = true) as L2 by (unfold date_ltb; by rewrite H2).
    assert (date_ltb x z = true) as L3 by date_arith.
    unfold date_ltb in L3. by destruct (date_compare x z).
Qed.

Global Instance mindate_OrderCmp : OrderCmp mindate_compare.
Proof.
  split.
  - intros [x|] [y|]; simpl; try done. apply (cmp_opp date_compare).
  - intros [x|] [y|]; simpl; try done. by intros ->%(cmp_eq date_compare).
  - intros [x|] [y|] [z|]; simpl; try done.
    apply (cmp_lt_trans date_compare).
Qed.

Lemma ascii_compare_lt_trans (a b c : Ascii.ascii) :
  Ascii.compare a b = Lt -> Ascii.compare b c = Lt -> Ascii.compare a c = Lt.
Proof. unfold Ascii.compare. rewrite !N.compare_lt_iff. lia. Qed.

Global Instance string_OrderCmp : OrderCmp String.compare.
Proof.
  split.
  - intros x y. apply String.compare_antisym.
  - apply String.compare_eq_iff.
  - intros x. induction x as [|a x IH]; intros [|b y] [|c z]; simpl; try done.
    destruct (Ascii.compare a b) eqn:E1; try done;
      destruct (Ascii.compare b c) eqn:E2; try done; intros H1 H2.
    + apply Ascii.compare_eq_iff in E1, E2. subst.
      replace (Ascii.compare c c) with Eq; [by apply (IH y z)|].
      unfold Ascii.compare. by rewrite N.compare_refl.
    + apply Ascii.compare_eq_iff in E1. subst. by rewrite E2.
    + apply Ascii.compare_eq_iff in E2. subst. by rewrite E1.
    + by rewrite (ascii_compare_lt_trans a b c).
Qed.

(** ** The stable sort *)

Section stable_sort.
Context {A : Type} (leb : A -> A -> bool).

Lemma insert_sorted_Permutation x l : insert_sorted leb x l ≡ₚ x :: l.
Proof.
  induction l as [|y l IH]; simpl; [done|].
  destruct (leb x y); [done|]. rewrite IH. apply Permutation_swap.
Qed.

Lemma stable_sort_Permutation l : stable_sort leb l ≡ₚ l.
Proof.
  induction l as [|x l IH]; simpl; [done|].
  unfold stable_sort in *; simpl.
  rewrite insert_sorted_Permutation. by rewrite IH.
Qed.

Lemma stable_sort_elem_of x l : x ∈ stable_sort leb l <-> x ∈ l.
Proof. by rewrite stable_sort_Permutation. Qed.

Lemma stable_sort_nil_inv l : stable_sort leb l = [] -> l = [].
Proof.
  intros H. apply Permutation_nil_r. by rewrite <- H, stable_sort_Permutation.
Qed.

Hypothesis leb_total : forall x y, leb x y = true \/ leb y x = true.
Hypothesis leb_trans :
  forall x y z, leb x y = true -> leb y z = true -> leb x z = true.


Lemma insert_sorted_sorted x l :
  sorted leb l -> sorted leb (insert_sorted leb x l).
Proof.
  unfold sorted. induction 1 as [|y l Hs IH Hy]; simpl.
  - repeat constructor.
  - destruct (leb x y) eqn:E.
    + constructor; [by constructor|]. constructor; [done|].
      eapply Forall_impl; [exact Hy|]. intros z Hz. by eapply leb_trans.
    + constructor; [done|].
      rewrite insert_sorted_Permutation. constructor; [|done].
      by destruct (leb_total x y) as [H|H]; [rewrite H in E|].
Qed.

Lemma stable_sort_sorted l : sorted leb (stable_sort leb l).
Proof.
  induction l as [|x l IH]; simpl; [constructor|].
  by apply insert_sorted_sorted.
Qed.

Lemma stable_sort_head_least l : head_least leb (stable_sort leb l).
Proof.
  pose proof (stable_sort_sorted l) as Hs. unfold head_least.
  destruct (stable_sort leb l) as [|w l']; [done|].
  intros x [->|Hx]%elem_of_cons.
  - by destruct (leb_total w w).
  - apply StronglySorted_inv in Hs as [_ Hw].
    by eapply Forall_forall in Hw.
Qed.
End stable_sort.

(** ** The selector *)


Lemma select_compare_key (a b : station) :
  select_compare a b = key_compare (select_key a) (select_key b).
Proof.
  unfold select_compare, key_compare, lex_cmp, lex, select_key. simpl.
  destruct (is_usw b ?= is_usw a); try done.
  destruct (span_days b ?= span_days a); try done.
  by destruct (mindate_compare (mindate a) (mindate b)).
Qed.

Global Instance key_OrderCmp : OrderCmp key_compare.
Proof.
  unfold key_compare.
  apply @lex_OrderCmp; [apply (flip_OrderCmp Z.compare) |].
  apply @lex_OrderCmp; [apply (flip_OrderCmp Z.compare) |].
  apply @lex_OrderCmp; apply _.
Qed.

Lemma select_leb_key (a b : station) :
  select_leb a b = leb_of key_compare (select_key a) (select_key b).
Proof. unfold select_leb, leb_of. by rewrite select_compare_key. Qed.

Lemma select_leb_total (a b : station) :
  select_leb a b = true \/ select_leb b a = true.
Proof. rewrite !select_leb_key. apply leb_of_total, _. Qed.

Lemma select_leb_trans (a b c : station) :
  select_leb a b = true -> select_leb b c = true -> select_leb a c = true.
Proof. rewrite !select_leb_key. apply leb_of_trans, _. Qed.

Lemma is_nil_true {A} (l : list A) : is_nil l = true <-> l = [].
Proof. by destruct l. Qed.

Lemma is_nil_false {A} (l : list A) : is_nil l = false <-> l <> [].
Proof. by destruct l. Qed.

(** [_select] of a non-empty frame is one row of the frame, and no row of
    the frame sorts before it. *)
Lemma _select_spec (df : list station) :
  df <> [] ->
  exists w, _select df = [w] /\ w ∈ df /\
            forall x, x ∈ df -> select_leb w x = true.
Proof.
  intros Hne. unfold _select.
  apply is_nil_false in Hne as Hn. rewrite Hn.
  pose proof (stable_sort_head_least select_leb select_leb_total
                select_leb_trans df) as Hl.
  pose proof (stable_sort_Permutation select_leb df) as Hp.
  destruct (stable_sort select_leb df) as [|w l'] eqn:E.
  - apply stable_sort_nil_inv in E. done.
  - exists w. split; [done|]. split.
    + rewrite <- Hp. by left.
    + intros x Hx. apply Hl. by rewrite Hp.
Qed.

Lemma candidates_subseteq (stations : list station) (prefer : bool) :
  candidates stations prefer ⊆ stations.
Proof.
  unfold candidates. destruct prefer; [|done].
  destruct (is_nil _); [done|]. intros x Hx.
  by apply list_elem_of_filter in Hx as [_ ?].
Qed.

Lemma candidates_nonempty (stations : list station) (prefer : bool) :
  stations <> [] -> candidates stations prefer <> [].
Proof.
  unfold candidates. destruct prefer; [|done].
  destruct (is_nil _) eqn:E; [done|]. intros _. by apply is_nil_false.
Qed.

(** With the preference off the candidate pool is the whole pool. *)
Lemma candidates_no_preference (stations : list station) :
  candidates stations false = stations.
Proof. reflexivity. Qed.

(** [cov_max] is missing only when every value is, and otherwise is one of
    the values. *)
Lemma cov_max_fold (l : list (option Q)) (acc : option Q) :
  let r := fold_left (fun acc c =>
               match acc, c with
               | Some m, Some q => Some (if Qle_bool q m then m else q)
               | None, Some q => Some q
               | _, None => acc
               end) l acc in
  (r = acc \/ r ∈ l) /\ (r = None -> acc = None).
Proof.
  revert acc. induction l as [|c l IH]; intros acc; simpl; [by auto|].
  destruct (IH (match acc, c with
                | Some m, Some q => Some (if Qle_bool q m then m else q)
                | None, Some q => Some q
                | _, None => acc
                end)) as [[H1|H1] H2]; split.
  - rewrite H1. destruct acc as [m|], c as [q|]; auto.
    + destruct (Qle_bool q m); [by left | right; by left].
    + right; by left.
  - intros Hr. specialize (H2 Hr). by destruct acc as [m|], c as [q|].
  - right. by right.
  - intros Hr. specialize (H2 Hr). by destruct acc as [m|], c as [q|].
Qed.

Lemma cov_max_Some (l : list (option Q)) (m : Q) :
  cov_max l = Some m -> Some m ∈ l.
Proof.
  intros H. destruct (cov_max_fold l None) as [[H1|H1] _];
    unfold cov_max in H; rewrite H in H1; done.
Qed.

Lemma cov_between_self (m : Q) :
  cov_between (Some m) (m - tol)%Q (m + tol)%Q = true.
Proof.
  unfold cov_between, tol. apply andb_true_intro.
  rewrite !Qle_bool_iff. split; lra.
Qed.


Lemma near_complete_two_sided (s : station) (q : Q) :
  datacoverage s = Some q -> (q <= 1)%Q ->
  near_complete s <-> (1 - tol <= q /\ q <= 1 + tol)%Q.
Proof.
  intros E Hq. unfold near_complete, cov_ge. rewrite E, Qle_bool_iff.
  unfold tol. split; [intros ?; split; lra | by intros [? _]].
Qed.

(** C10. For a non-empty pool the selector returns exactly one station, a
    station of the pool (so its identifier is an identifier of the pool),
    whatever the coverage values are, missing ones included. *)
Theorem pick_representative_station_one (stations : list station)
    (prefer : bool) :
  stations <> [] ->
  exists w, pick_representative_station stations prefer = [w] /\
            w ∈ stations /\ id w ∈ (id <$> stations).
Proof.
  intros Hne.
  assert (exists w, pick_representative_station stations prefer = [w] /\
                    w ∈ candidates stations prefer) as (w & Hw & Hin).
  { unfold pick_representative_station.
    apply is_nil_false in Hne as Hn. rewrite Hn.
    pose proof (candidates_nonempty stations prefer Hne) as Hc.
    set (cand := candidates stations prefer) in *.
    destruct (is_nil (filter _ cand)) eqn:E1; simpl.
    - destruct (cov_max (datacoverage <$> cand)) as [m|] eqn:Em.
      + apply cov_max_Some in Em.
        apply list_elem_of_fmap in Em as (s & Es & Hs).
        destruct (_select_spec
                    (filter (fun s => cov_between (datacoverage s)
                                        (m - tol)%Q (m + tol)%Q = true) cand))
          as (w & Hw & Hin & _).
        { intros Hnil.
          assert (s ∈ filter (fun s => cov_between (datacoverage s)
                                (m - tol)%Q (m + tol)%Q = true) cand) as Hs'.
          { apply list_elem_of_filter. split; [|done].
            rewrite <- Es. apply cov_between_self. }
          rewrite Hnil in Hs'. by apply elem_of_nil in Hs'. }
        exists w. split; [done|].
        by apply list_elem_of_filter in Hin as [_ ?].
      + destruct (_select_spec cand Hc) as (w & Hw & Hin & _). by exists w.
    - apply is_nil_false in E1.
      destruct (_select_spec _ E1) as (w & Hw & Hin & _).
      exists w. split; [done|].
      by apply list_elem_of_filter in Hin as [_ ?]. }
  exists w. split; [done|].
  apply candidates_subseteq in Hin. split; [done|].
  apply list_elem_of_fmap. by exists w.
Qed.

(** C10, an instance: a pool of one station whose coverage is missing. *)
Lemma pick_representative_station_one_witness :
  exists w, pick_representative_station [ex_nocov] false = [w] /\
            w ∈ [ex_nocov] /\ id w ∈ (id <$> [ex_nocov]).
Proof. apply (pick_representative_station_one [ex_nocov] false). done. Defined.

(** C2 as stated fails: with the preferred-network option on, a pool holding
    a full-coverage station outside the network and a half-coverage station
    inside it yields the half-coverage station. *)
Lemma near_complete_of_pool_counterexample :
  ~ (forall (stations : list station) (prefer : bool),
       (exists s, s ∈ stations /\ near_complete s) ->
       forall w, w ∈ pick_representative_station stations prefer ->
                 near_complete w).
Proof.
  intros H.
  specialize (H [ex_full; ex_usw_half] true).
  assert (Hw : ex_usw_half ∈
               pick_representative_station [ex_full; ex_usw_half] true)
    by (vm_compute; left).
  apply H in Hw.
  - vm_compute in Hw. discriminate.
  - exists ex_full. split; [left | by vm_compute].
Qed.

(** C2, amended. If some candidate of the pool that remains after the
    optional preferred-network restriction (the whole pool when the option is
    off) has coverage within 1e-6 of 1.0, the selector returns one station, it
    is one of those near-complete candidates, never one of lower coverage. *)
Theorem pick_near_complete (stations : list station) (prefer : bool) :
  (exists s, s ∈ candidates stations prefer /\ near_complete s) ->
  exists w, pick_representative_station stations prefer = [w] /\
            w ∈ candidates stations prefer /\ near_complete w.
Proof.
  intros (s & Hs & Hn).
  assert (stations <> []) as Hne.
  { intros ->. apply candidates_subseteq in Hs. by apply elem_of_nil in Hs. }
  unfold pick_representative_station.
  apply is_nil_false in Hne as ->.
  set (cand := candidates stations prefer) in *.
  destruct (is_nil (filter _ cand)) eqn:E1; simpl.
  - apply is_nil_true in E1.
    assert (s ∈ filter (fun s => cov_ge (datacoverage s) (1 - tol)%Q = true)
                       cand) as Hs' by (by apply list_elem_of_filter).
    rewrite E1 in Hs'. by apply elem_of_nil in Hs'.
  - apply is_nil_false in E1.
    destruct (_select_spec _ E1) as (w & Hw & Hin & _).
    exists w. split; [done|]. by apply list_elem_of_filter in Hin as [? ?].
Qed.

(** C2, an instance: the preference is off and the pool holds a
    full-coverage station. *)
Lemma pick_near_complete_witness :
  exists w, pick_representative_station [ex_usw_half; ex_full] false = [w] /\
            w ∈ candidates [ex_usw_half; ex_full] false /\ near_complete w.
Proof.
  apply (pick_near_complete [ex_usw_half; ex_full] false).
  exists ex_full. split; [right; left | by vm_compute].
Defined.


Lemma select_leb_spec (x y : station) :
  select_leb x y = true <-> sorts_no_later x y.
Proof.
  unfold select_leb, select_compare, sorts_no_later, String.leb.
  destruct (Z.compare_spec (is_usw y) (is_usw x)) as [E1|E1|E1];
    [|split; [intros _; lia | done] | split; [done | intros H; lia]].
  destruct (Z.compare_spec (span_days y) (span_days x)) as [E2|E2|E2];
    [|split; [intros _; lia | done] | split; [done | intros H; lia]].
  destruct (mindate_compare (mindate x) (mindate y)) eqn:E3.
  - apply (cmp_eq mindate_compare) in E3.
    split; [intros; right; split; [done|]; right; split; [done|]; by right |].
    intros [?|[_ [?|[_ [?|[_ ?]]]]]]; done || lia.
  - split; [intros _; right; split; [done|]; right; split; [done|]; by left
           | done].
  - split; [done|].
    intros [?|[_ [?|[_ [?|[E _]]]]]]; try done; try lia.
    rewrite E in E3. by rewrite (cmp_refl mindate_compare) in E3.
Qed.

(** C4 as stated fails: two stations with equal coverage, flag and span; the
    one with the larger identifier starts earlier and is selected. *)
Lemma smaller_id_wins_counterexample :
  ~ (forall (df : list station) (a b : station),
       a ∈ df -> b ∈ df ->
       datacoverage a = datacoverage b -> is_usw a = is_usw b ->
       span_days a = span_days b ->
       String.ltb (id a) (id b) = true ->
       _select df <> [b]).
Proof.
  intros H.
  apply (H [ex_late_a; ex_early_b] ex_late_a ex_early_b);
    first [ by vm_compute | left | right; left ].
Qed.

(** C4, amended. [_select] takes the first row of the frame sorted
    descending by (preferred-network flag, span days) then ascending by
    (earliest start date, identifier); of two candidates of the frame with
    equal flag, equal span and equal start date, the one with the lexically
    larger identifier is not selected. *)
Theorem select_order_and_tie_break (df : list station) :
  (exists l, l ≡ₚ df /\ sorted select_leb l /\ _select df = take 1 l) /\
  (forall x y, select_leb x y = true <-> sorts_no_later x y) /\
  (forall a b : station,
     a ∈ df -> b ∈ df ->
     is_usw a = is_usw b -> span_days a = span_days b ->
     mindate a = mindate b ->
     String.ltb (id a) (id b) = true ->
     _select df <> [b] /\
     exists w, _select df = [w] /\ w ∈ df /\
               forall x, x ∈ df -> sorts_no_later w x).
Proof.
  split; [|split].
  - exists (stable_sort select_leb df). split; [|split].
    + apply stable_sort_Permutation.
    + apply stable_sort_sorted;
        [apply select_leb_total | apply select_leb_trans].
    + unfold _select. by destruct df.
  - apply select_leb_spec.
  - intros a b Ha Hb E1 E2 E3 Hlt.
    assert (df <> []) as Hne by (intros ->; by apply elem_of_nil in Ha).
    destruct (_select_spec df Hne) as (w & Hw & Hin & Hmin).
    split.
    + rewrite Hw. intros [= ->].
      specialize (Hmin a Ha).
      unfold select_leb, select_compare in Hmin.
      rewrite E1, E2, E3, !Z.compare_refl,
        (cmp_refl mindate_compare) in Hmin.
      rewrite (cmp_opp String.compare) in Hmin.
      unfold String.ltb in Hlt.
      by destruct (String.compare (id a) (id b)).
    + exists w. split; [done|]. split; [done|].
      intros x Hx. by apply select_leb_spec, Hmin.
Qed.

(** C4, an instance: equal flag, span and start date, identifiers 1 and 2. *)
Lemma select_order_and_tie_break_witness :
  _select [ex_tie_2; ex_tie_1] <> [ex_tie_2] /\
  exists w, _select [ex_tie_2; ex_tie_1] = [w] /\ w ∈ [ex_tie_2; ex_tie_1] /\
            forall x, x ∈ [ex_tie_2; ex_tie_1] -> sorts_no_later w x.
Proof.
  apply (proj2 (proj2 (select_order_and_tie_break [ex_tie_2; ex_tie_1]))
           ex_tie_1 ex_tie_2);
    first [ by vm_compute | left | right; left ].
Defined.

(** ** Weekly bucketing *)

(** Day 0 of the Unix count is a Thursday. *)
Lemma weekday_unix_date (d : date) : weekday d = (unix_date d + 3) mod 7.
Proof.
  unfold weekday, unix_date, UNIX_EPOCH_ORDINAL.
  replace (toordinal d + 6) with (toordinal d - 719163 + 3 + 102738 * 7) by lia.
  by rewrite Z.mod_add.
Qed.

(** The start of the [W-MON] week of a day, as a day number: at most six days
    back, and always a Tuesday. *)
Lemma week_start_W_MON (u : Z) :
  let s := asfreq_WtoDT (unix_date_to_week u W_MON) W_MON 0 in
  s <= u < s + 7 /\ (s + 3) mod 7 = 1.
Proof.
  unfold asfreq_WtoDT, unix_date_to_week, W_MON. simpl.
  pose proof (Z.div_mod (u + 3 - 1) 7 ltac:(lia)) as Hd.
  pose proof (Z.mod_pos_bound (u + 3 - 1) 7 ltac:(lia)) as Hm.
  split; [lia|].
  match goal with
  | |- ?X mod 7 = 1 => replace X with (1 + (u + 3 - 1) `div` 7 * 7) by lia
  end.
  by rewrite Z.mod_add.
Qed.

(** With the anchor [W-SUN] the weeks start on Monday. *)
Lemma week_start_W_SUN (u : Z) :
  let s := asfreq_WtoDT (unix_date_to_week u W_SUN) W_SUN 0 in
  s <= u < s + 7 /\ (s + 3) mod 7 = 0.
Proof.
  unfold asfreq_WtoDT, unix_date_to_week, W_SUN. simpl.
  pose proof (Z.div_mod (u + 3 - 0) 7 ltac:(lia)) as Hd.
  pose proof (Z.mod_pos_bound (u + 3 - 0) 7 ltac:(lia)) as Hm.
  split; [lia|].
  match goal with
  | |- ?X mod 7 = 0 => replace X with (0 + (u + 3 - 0) `div` 7 * 7) by lia
  end.
  by rewrite Z.mod_add.
Qed.

(** *** Ordinals and dates *)

Lemma month_day_spec (leapyear : bool) (n : Z) :
  0 <= n < 365 ->
  let '(m, dd) := month_day leapyear n in
  1 <= m <= 12 /\ 1 <= dd /\
  DAYS_BEFORE_MONTH m + (if (2 <? m) && leapyear then 1 else 0) + dd = n + 1.
Proof.
  intros Hn.
  assert (Hall : forallb (fun l => forallb (month_day_ok l) (seqZ 0 365))
                         [true; false] = true) by (by vm_compute).
  assert (month_day_ok leapyear n = true) as Hok.
  { rewrite forallb_forall in Hall.
    assert (In leapyear [true; false]) as Hin
      by (destruct leapyear; [left | right; left]; done).
    specialize (Hall leapyear Hin). rewrite forallb_forall in Hall.
    apply Hall, list_elem_of_In, elem_of_seqZ. lia. }
  unfold month_day_ok in Hok. destruct (month_day leapyear n) as [m dd].
  rewrite !andb_true_iff in Hok. destruct Hok as (((H1 & H2) & H3) & H4).
  lia.
Qed.

(** [date.fromordinal] is a right inverse of [date.toordinal]. *)
Lemma toordinal_fromordinal (n : Z) : 1 <= n -> toordinal (fromordinal n) = n.
Proof.
  intros Hn. unfold fromordinal.
  set (n0 := n - 1).
  set (n400 := n0 / 146097). set (r400 := n0 mod 146097).
  set (n100 := r400 / 36524). set (r100 := r400 mod 36524).
  set (n4 := r100 / 1461). set (r4 := r100 mod 1461).
  set (n1 := r4 / 365). set (r1 := r4 mod 365).
  assert (n0 = 146097 * n400 + r400 /\ 0 <= r400 < 146097) as [E400 B400].
  { subst n400 r400. split; [apply Z.div_mod; lia | apply Z.mod_pos_bound; lia]. }
  assert (r400 = 36524 * n100 + r100 /\ 0 <= r100 < 36524) as [E100 B100].
  { subst n100 r100. split; [apply Z.div_mod; lia | apply Z.mod_pos_bound; lia]. }
  assert (r100 = 1461 * n4 + r4 /\ 0 <= r4 < 1461) as [E4 B4].
  { subst n4 r4. split; [apply Z.div_mod; lia | apply Z.mod_pos_bound; lia]. }
  assert (r4 = 365 * n1 + r1 /\ 0 <= r1 < 365) as [E1 B1].
  { subst n1 r1. split; [apply Z.div_mod; lia | apply Z.mod_pos_bound; lia]. }
  assert (0 <= n400) by (subst n400; apply Z.div_pos; lia).
  assert (0 <= n100 <= 4) by lia.
  assert (0 <= n4 <= 24) by lia.
  assert (0 <= n1 <= 4) by lia.
  clearbody n400 r400 n100 r100 n4 r4 n1 r1.
  destruct ((n1 =? 4) || (n100 =? 4)) eqn:Ecase.
  - unfold toordinal, days_before_year, days_before_month, is_leap. simpl.
    apply orb_true_iff in Ecase.
    assert (Hy : exists k, n400 * 400 + 1 + n100 * 100 + n4 * 4 + n1 - 1 = 4 * k /\
                 ((4 * k) mod 100 <> 0 \/ (4 * k) mod 400 = 0)).
    { destruct Ecase as [E|E]; apply Z.eqb_eq in E.
      - exists (100 * n400 + 25 * n100 + n4 + 1). split; [lia|].
        assert (n4 <= 23) by lia. assert (n100 <= 3) by lia.
        left. Z.div_mod_to_equations. lia.
      - exists (100 * n400 + 100). split; [lia|]. right.
        Z.div_mod_to_equations. lia. }
    destruct Hy as (k & Hk & Hleap). rewrite Hk.
    replace ((4 * k) mod 4) with 0 by (Z.div_mod_to_equations; lia).
    assert ((negb ((4 * k) mod 100 =? 0) || ((4 * k) mod 400 =? 0)) = true) as ->.
    { destruct Hleap as [Hl|Hl].
      - apply Z.eqb_neq in Hl. by rewrite Hl.
      - apply Z.eqb_eq in Hl. rewrite Hl. by rewrite orb_true_r. }
    simpl. destruct Ecase as [E|E]; apply Z.eqb_eq in E;
      Z.div_mod_to_equations; lia.
  - apply orb_false_iff in Ecase as [Ea Eb].
    apply Z.eqb_neq in Ea, Eb.
    set (leapyear := (n1 =? 3) && (negb (n4 =? 24) || (n100 =? 3))).
    pose proof (month_day_spec leapyear r1 B1) as Hmd.
    destruct (month_day leapyear r1) as [m dd].
    destruct Hmd as (Hm & Hdd & Hsum).
    unfold toordinal, days_before_year, days_before_month. simpl.
    assert (is_leap (n400 * 400 + 1 + n100 * 100 + n4 * 4 + n1) = leapyear) as ->.
    { unfold is_leap, leapyear.
      destruct (Z.eqb_spec n1 3) as [E3|E3]; simpl.
      - replace ((n400 * 400 + 1 + n100 * 100 + n4 * 4 + n1) mod 4) with 0
          by (Z.div_mod_to_equations; lia). simpl.
        destruct (Z.eqb_spec n4 24) as [E24|E24]; simpl.
        + replace ((n400 * 400 + 1 + n100 * 100 + n4 * 4 + n1) mod 100) with 0
            by (Z.div_mod_to_equations; lia). simpl.
          destruct (Z.eqb_spec n100 3) as [E33|E33].
          * replace ((n400 * 400 + 1 + n100 * 100 + n4 * 4 + n1) mod 400) with 0
              by (Z.div_mod_to_equations; lia). done.
          * apply Z.eqb_neq. Z.div_mod_to_equations. lia.
        + assert ((n400 * 400 + 1 + n100 * 100 + n4 * 4 + n1) mod 100 <> 0) as Hne
            by (Z.div_mod_to_equations; lia).
          apply Z.eqb_neq in Hne. by rewrite Hne.
      - assert ((n400 * 400 + 1 + n100 * 100 + n4 * 4 + n1) mod 4 <> 0) as Hne
          by (Z.div_mod_to_equations; lia).
        apply Z.eqb_neq in Hne. by rewrite Hne. }
    Z.div_mod_to_equations. lia.
Qed.

Lemma unix_date_of_unix (u : Z) :
  1 <= u + UNIX_EPOCH_ORDINAL -> unix_date (date_of_unix u) = u.
Proof.
  intros Hu. unfold unix_date, date_of_unix.
  rewrite toordinal_fromordinal by done. lia.
Qed.

Lemma DAYS_BEFORE_MONTH_nonneg (m : Z) :
  1 <= m <= 12 -> 0 <= DAYS_BEFORE_MONTH m.
Proof.
  intros Hm.
  assert (Hc : m = 1 \/ m = 2 \/ m = 3 \/ m = 4 \/ m = 5 \/ m = 6 \/ m = 7 \/
               m = 8 \/ m = 9 \/ m = 10 \/ m = 11 \/ m = 12) by lia.
  clear Hm. repeat destruct Hc as [->|Hc]; try subst m; simpl; lia.
Qed.

Lemma toordinal_lower (d : date) :
  valid_date d -> 2 <= year d -> 366 <= toordinal d.
Proof.
  intros (Hy & Hm & Hd) H2.
  pose proof (DAYS_BEFORE_MONTH_nonneg (month d) Hm) as Hb.
  unfold toordinal, days_before_year, days_before_month.
  generalize dependent (DAYS_BEFORE_MONTH (month d)). intros dbm Hb.
  destruct (_ && _).
  - clear Hm. Z.div_mod_to_equations; lia.
  - clear Hm. Z.div_mod_to_equations; lia.
Qed.


(** The weekly bucket of a date is a Tuesday, at most six days back. *)
Lemma weekly_bucket_date (d : date) :
  7 <= toordinal d ->
  let b := period_start weekly d in
  weekday b = 1 /\ toordinal d - 6 <= toordinal b <= toordinal d.
Proof.
  intros Hd b.
  destruct (week_start_W_MON (unix_date d)) as [Hrange Htue].
  assert (b = date_of_unix
                (asfreq_WtoDT (unix_date_to_week (unix_date d) W_MON) W_MON 0))
    as Hb by reflexivity.
  clearbody b.
  revert Hrange Htue Hb.
  generalize (asfreq_WtoDT (unix_date_to_week (unix_date d) W_MON) W_MON 0).
  intros s Hrange Htue ->.
  assert (unix_date (date_of_unix s) = s) as Hs.
  { apply unix_date_of_unix. unfold unix_date, UNIX_EPOCH_ORDINAL in *. lia. }
  split.
  - by rewrite weekday_unix_date, Hs.
  - unfold unix_date in *. lia.
Qed.

(** C1 (the code departs from the claim). The weekly bucket of the code is
    the Tuesday on or before the date, not the Monday: for every date the
    bucket is a Tuesday at most six days back, so a Monday buckets to the
    Tuesday six days before it and a Wednesday to the Tuesday of the day
    before.  2024-01-03, a Wednesday, buckets to Tuesday 2024-01-02 and not to
    Monday 2024-01-01; 2024-01-01, a Monday, buckets to Tuesday 2023-12-26
    and not to itself. *)
Theorem weekly_bucket_is_tuesday :
  (forall d : date,
     valid_date d -> 2 <= year d ->
     let b := period_start weekly d in
     weekday b = 1 /\
     toordinal d - 6 <= toordinal b <= toordinal d /\
     (weekday d = 0 -> toordinal b = toordinal d - 6) /\
     (weekday d = 2 -> toordinal b = toordinal d - 1)) /\
  weekday (mkdate 2024 1 3) = 2 /\
  period_start weekly (mkdate 2024 1 3) = mkdate 2024 1 2 /\
  weekday (mkdate 2024 1 2) = 1 /\
  weekday (mkdate 2024 1 1) = 0 /\
  period_start weekly (mkdate 2024 1 1) = mkdate 2023 12 26 /\
  weekday (mkdate 2023 12 26) = 1.
Proof.
  split; [|by vm_compute].
  intros d Hv Hy.
  pose proof (toordinal_lower d Hv Hy) as Hlow.
  assert (7 <= toordinal d) as H7 by lia.
  destruct (weekly_bucket_date d H7) as [Htue Hrange].
  cbv zeta. revert Htue Hrange. generalize (period_start weekly d).
  intros b Htue Hrange. unfold weekday in *.
  clear Hv Hy Hlow H7. revert Htue Hrange.
  generalize (toordinal d) (toordinal b). intros od ob Htue Hrange.
  split; [done|]. split; [done|].
  split; intros Hwd; Z.div_mod_to_equations; lia.
Qed.

(** ** The aggregator on empty input *)

Lemma filter_none {A} (P : A -> Prop) `{!forall x, Decision (P x)}
    (l : list A) :
  (forall x, x ∈ l -> ~ P x) -> filter P l = [].
Proof.
  induction l as [|a l IH]; intros Hl; [done|].
  rewrite filter_cons. destruct (decide (P a)) as [Ha|Ha].
  - exfalso. apply (Hl a); [left | done].
  - apply IH. intros x Hx. apply Hl. by right.
Qed.

Lemma filter_some {A} (P : A -> Prop) `{!forall x, Decision (P x)}
    (l : list A) (x : A) :
  x ∈ l -> P x -> filter P l <> [].
Proof.
  intros Hx HP Hnil. by apply (filter_nil_not_elem_of P l x).
Qed.

(** C9. When the daily frame is empty, or holds no observation of a
    requested variable code, the aggregator returns the empty table; the
    aggregator is a total function, so no input makes it fail. *)
Theorem daily_to_period_station_empty (daily_df : list obs)
    (wanted_vars : list string) (f : freq) :
  (forall o, o ∈ daily_df -> o_datatype o ∉ wanted_vars) ->
  daily_to_period_station daily_df wanted_vars f = empty_table /\
  pt_is_empty (daily_to_period_station daily_df wanted_vars f) = true.
Proof.
  intros H.
  assert (daily_to_period_station daily_df wanted_vars f = empty_table) as ->;
    [|done].
  unfold daily_to_period_station.
  destruct (is_nil daily_df); [done|].
  by rewrite (filter_none _ daily_df H).
Qed.

(** C9, instances: an empty frame, and a frame with only snow depth when
    temperatures are requested. *)
Lemma daily_to_period_station_empty_witness :
  (daily_to_period_station [] ["TMAX"; "TMIN"] weekly = empty_table /\
   pt_is_empty (daily_to_period_station [] ["TMAX"; "TMIN"] weekly) = true) /\
  (daily_to_period_station [ex_snwd] ["TMAX"; "TMIN"] monthly = empty_table /\
   pt_is_empty (daily_to_period_station [ex_snwd] ["TMAX"; "TMIN"] monthly)
     = true).
Proof.
  split.
  - apply (daily_to_period_station_empty [] ["TMAX"; "TMIN"] weekly).
    intros o Ho. by apply elem_of_nil in Ho.
  - apply (daily_to_period_station_empty [ex_snwd] ["TMAX"; "TMIN"] monthly).
    intros o ->%list_elem_of_singleton.
    apply (bool_decide_unpack _). by vm_compute.
Defined.

(** ** The request helper *)

Section req_json_facts.
Context {J : Type} (empty_json : J) (get : Z -> reply J) (max_retry : Z).

(** When every attempt fails and the last one is not a rate-limit reply,
    the exception raised is the failure of the last attempt. *)
Lemma req_loop_exhausted (n : nat) (k : Z) (st : req_state) :
  k + Z.of_nat n = max_retry ->
  (forall a, k <= a <= max_retry -> retried (get a) = true) ->
  rate_limited (get max_retry) = false ->
  exists e, failure_of (get max_retry) = Some e /\
            (req_loop empty_json get max_retry
                      (seqZ k (Z.of_nat n + 1)) st).1 = Raise e.
Proof.
  revert k st. induction n as [|n IH]; intros k st Hk Hall Hlast.
  - assert (k = max_retry) as -> by lia. clear Hk.
    specialize (Hall max_retry ltac:(lia)).
    change (Z.of_nat 0 + 1) with 1.
    rewrite seqZ_cons by lia. rewrite seqZ_nil by lia. simpl.
    destruct (get max_retry) as [e|code text]; simpl in *.
    + exists e. split; [done|]. unfold handle_exception.
      rewrite Hall, Z.ltb_irrefl. done.
    + rewrite Hlast. apply bool_decide_eq_true in Hall as [e He].
      exists e. split; [done|]. revert He.
      case_bool_decide as Hc.
      * assert (((400 <=? code) && (code <? 600)) = true) as ->.
        { repeat (apply elem_of_cons in Hc as [->|Hc]; [done|]).
          by apply elem_of_nil in Hc. }
        by intros [= <-].
      * destruct ((400 <=? code) && (code <? 600)).
        { intros [= <-]. unfold handle_exception. simpl.
          by rewrite Z.ltb_irrefl. }
        destruct text; try done.
        destruct (code =? 204); [done|]. intros [= <-].
        by rewrite Z.ltb_irrefl.
  - pose proof (Hall k ltac:(lia)) as Hk'.
    rewrite seqZ_cons by lia.
    replace (Z.pred (Z.of_nat (S n) + 1)) with (Z.of_nat n + 1) by lia.
    assert (forall st', exists e,
               failure_of (get max_retry) = Some e /\
               (req_loop empty_json get max_retry
                         (seqZ (Z.succ k) (Z.of_nat n + 1)) st').1 = Raise e)
      as Hrest.
    { intros st'. apply IH; [lia | | done]. intros a Ha. apply Hall. lia. }
    assert ((k <? max_retry) = true) as Hlt by (apply Z.ltb_lt; lia).
    revert Hrest. generalize (seqZ (Z.succ k) (Z.of_nat n + 1)).
    intros rest Hrest. simpl.
    destruct (get k) as [e|code text]; simpl in *.
    + unfold handle_exception. rewrite Hk', Hlt. apply Hrest.
    + destruct (code =? 429); [apply Hrest|].
      destruct (bool_decide (code ∈ [500; 502; 503; 504])); [apply Hrest|].
      apply bool_decide_eq_true in Hk' as [e He].
      destruct ((400 <=? code) && (code <? 600)).
      { unfold handle_exception. simpl. rewrite Hlt. apply Hrest. }
      destruct text; try done.
      destruct (code =? 204); [done|]. rewrite Hlt. apply Hrest.
Qed.

(** X1. [req_json]: when every attempt fails in a way the loop retries and
    the last attempt is not a rate-limit reply, the call raises the failure
    of the last attempt. *)
Lemma req_json_exhausted :
  1 <= max_retry ->
  (forall a, 1 <= a <= max_retry -> retried (get a) = true) ->
  rate_limited (get max_retry) = false ->
  exists e, failure_of (get max_retry) = Some e /\
            (req_json empty_json get max_retry).1 = Raise e.
Proof.
  intros H1 Hall Hlast. unfold req_json, range.
  replace (max_retry + 1 - 1) with (Z.of_nat (Z.to_nat (max_retry - 1)) + 1)
    by lia.
  apply req_loop_exhausted; [lia | done | done].
Qed.
End req_json_facts.

(** An instance: two rate-limit replies and a timeout on the third attempt; the
    timeout is raised. *)
Lemma req_json_exhausted_witness :
  exists e, failure_of (ex_429_then_timeout 3) = Some e /\
            (req_json "{}" ex_429_then_timeout 3).1 = Raise e.
Proof.
  apply (req_json_exhausted "{}" ex_429_then_timeout 3).
  - lia.
  - intros a Ha. assert (a = 1 \/ a = 2 \/ a = 3) as Hc by lia.
    by destruct Hc as [Hc|[Hc|Hc]]; rewrite Hc.
  - done.
Defined.

(** C3 (the code departs from the claim). When the retries are used up and
    the last reply was a rate-limit status, the helper does not raise the last
    failure: after a 503 and two 429 replies it raises the stale 503 error,
    and after three 429 replies, having recorded nothing, it raises the
    catch-all [RuntimeError]. *)
Theorem req_json_rate_limit_exhausted :
  RETRY = 3 /\
  rate_limited (ex_503_then_429 RETRY) = true /\
  failure_of (ex_503_then_429 RETRY) = Some (HTTPError 429) /\
  req_json "{}" ex_503_then_429 RETRY =
    (Raise (HTTPError 503), mkreq (Some (HTTPError 503)) [1; 2; 3]) /\
  req_json "{}" ex_always_429 RETRY =
    (Raise RuntimeError, mkreq None [1; 2; 3]).
Proof. by vm_compute. Qed.

(** ** The per-region body of [main] *)

Section region_facts.
Context (list_stations_for_state :
           string -> list string -> result (list station))
        (fetch_station_year :
           string -> date -> date -> list string -> result (list obs))
        (year_slices_NaT : result (list (date * date)))
        (a : args) (fips : string).

Lemma to_csv_written path f w :
  written (to_csv path f w) = written w ++ [(path, f)].
Proof. done. Qed.

(** The fetch loop writes per-year files only. *)
Lemma fetch_loop_written sel slices paths parts w :
  exists new,
    written (fetch_loop fetch_station_year a fips sel slices paths parts w).2
      = written w ++ new /\
    Forall (fun e => is_period_file e.2 = false) new.
Proof.
  revert paths parts w.
  induction slices as [|[ys ye] rest IH]; intros paths parts w; simpl.
  - exists []. by rewrite app_nil_r.
  - assert (forall paths' parts' path df, exists new,
              written (fetch_loop fetch_station_year a fips sel rest paths'
                         parts' (to_csv path (DailyCsv df) w)).2
                = written w ++ new /\
              Forall (fun e => is_period_file e.2 = false) new) as Hcsv.
    { intros paths' parts' path df.
      destruct (IH paths' parts' (to_csv path (DailyCsv df) w))
        as (new & Hw & Hnew).
      exists ((path, DailyCsv df) :: new). split.
      - rewrite Hw, to_csv_written. by rewrite <- app_assoc.
      - by constructor. }
    destruct (resume a && already_done _ w); [apply IH|].
    destruct (fetch_station_year _ _ _ _) as [df|e].
    + destruct (is_nil df), (save_raw a); apply IH || apply Hcsv.
    + destruct (is_exception e); [apply IH|].
      exists []. by rewrite app_nil_r.
Qed.

(** C8, amended. The period-aggregate file of a region is written only
    when the whole pipeline of the region has succeeded (a non-empty
    catalog, a selected station, a non-empty daily frame, a non-empty
    aggregate), and it is then the last file written; a region that stops
    earlier writes no period-aggregate file (the station catalog, the
    selected-station file and the per-year files are written as the
    pipeline goes). *)
Theorem period_file_written_last (w : world) :
  let r := process_region list_stations_for_state fetch_station_year
                          year_slices_NaT a fips w in
  exists new,
    written r.2 = written w ++ new /\
    (r.1 <> Done -> Forall (fun e => is_period_file e.2 = false) new) /\
    (r.1 = Done ->
     exists stations sel rep' daily_df init,
       list_stations_for_state fips (vars a) = Return stations /\
       stations <> [] /\
       pick_representative_station stations (prefer_usw a) = sel :: rep' /\
       daily_df <> [] /\
       let agg := daily_to_period_station daily_df (vars a) (a_freq a) in
       pt_is_empty agg = false /\
       new = init ++ [(out_path a fips, PeriodCsv agg)] /\
       Forall (fun e => is_period_file e.2 = false) init).
Proof.
  unfold process_region.
  destruct (list_stations_for_state fips (vars a)) as [stations|e] eqn:El.
  2:{ exists []. rewrite app_nil_r.
      destruct (is_exception e); simpl; by repeat split. }
  destruct (is_nil stations) eqn:En.
  { exists []. rewrite app_nil_r. simpl. by repeat split. }
  apply is_nil_false in En.
  destruct (pick_representative_station stations (prefer_usw a))
    as [|sel rep'] eqn:Ep.
  { exists [(meta_path a fips, StationsCsv stations)]. simpl.
    split; [done|]. split; [|done]. intros _. by repeat constructor. }
  set (w2 := to_csv (rep_path a fips) (SelectedCsv (sel :: rep'))
               (to_csv (meta_path a fips) (StationsCsv stations) w)).
  assert (written w2 = written w ++
            [(meta_path a fips, StationsCsv stations);
             (rep_path a fips, SelectedCsv (sel :: rep'))]) as Hw2.
  { unfold w2. rewrite !to_csv_written. by rewrite <- app_assoc. }
  unfold fetch_and_aggregate.
  destruct (match mindate sel, maxdate sel with
            | Some mind, Some maxd =>
                Return (year_slices (Some mind) (Some maxd))
            | _, _ => year_slices_NaT
            end) as [slices|e].
  2:{ eexists. split; [exact Hw2|]. simpl. split; [|done].
      intros _. by repeat constructor. }
  destruct (fetch_loop_written sel slices [] [] w2) as (new & Hnew & Hfl).
  destruct (fetch_loop _ _ _ _ _ _ _ _) as [[[paths parts]|e] w3]; simpl in *.
  2:{ eexists. split; [by rewrite Hnew, Hw2, <- app_assoc|].
      split; [|done]. intros _. by repeat constructor. }
  unfold aggregate_and_write.
  destruct (is_nil (merge_daily a paths parts w3)) eqn:Ed; simpl.
  { eexists. split; [by rewrite Hnew, Hw2, <- app_assoc|].
    split; [|done]. intros _. by repeat constructor. }
  destruct (pt_is_empty _) eqn:Ea; simpl.
  { eexists. split; [by rewrite Hnew, Hw2, <- app_assoc|].
    split; [|done]. intros _. by repeat constructor. }
  eexists. split; [by rewrite Hnew, Hw2, <- !app_assoc|].
  split; [done|]. intros _.
  exists stations, sel, rep', (merge_daily a paths parts w3),
    ([(meta_path a fips, StationsCsv stations);
      (rep_path a fips, SelectedCsv (sel :: rep'))] ++ new).
  split; [done|]. split; [done|]. split; [done|].
  split; [by apply is_nil_false|]. split; [done|].
  split; [by rewrite <- app_assoc|]. by repeat constructor.
Qed.
End region_facts.

(** C8 as stated fails: a region whose catalog and selection succeed but
    whose station has no data in 2002-2025 stops with no daily data, after
    its station catalog and its selected-station file have been written. *)
Lemma no_partial_output_counterexample :
  ~ (forall list_stations_for_state fetch_station_year year_slices_NaT
            (a : args) (fips : string) (w : world),
       let r := process_region list_stations_for_state fetch_station_year
                               year_slices_NaT a fips w in
       r.1 <> Done -> written r.2 = written w).
Proof.
  intros H.
  specialize (H ex_list_stations ex_fetch (Return []) ex_args "01" ex_world).
  assert (process_region ex_list_stations ex_fetch (Return []) ex_args "01"
            ex_world =
          (NoDaily,
           mkworld (<["ghcnd_out_rep/FIPS_01/selected_station.csv" :=
                        SelectedCsv [ex_full]]>
                      (<["ghcnd_out_rep/FIPS_01/stations_meta.csv" :=
                           StationsCsv [ex_full]]> ∅))
                   [("ghcnd_out_rep/FIPS_01/stations_meta.csv",
                     StationsCsv [ex_full]);
                    ("ghcnd_out_rep/FIPS_01/selected_station.csv",
                     SelectedCsv [ex_full])])) as E by reflexivity.
  rewrite E in H. simpl in H. by specialize (H ltac:(done)).
Qed.

(** C8, an instance: a region whose pipeline succeeds; the period file is
    the third and last file written. *)
Lemma period_file_written_last_witness :
  let r := process_region ex_list_2002 ex_fetch_tmax (Return []) ex_args "01"
                          ex_world in
  r.1 = Done /\
  (snd <$> written r.2)
  = [ StationsCsv [ex_station_2002]; SelectedCsv [ex_station_2002];
      PeriodCsv (mktable ["week_start"; "TMAX"]
                         [(mkdate 2002 1 1, [Some 10%Q])]) ] /\
  exists new,
    written r.2 = written ex_world ++ new /\
    (r.1 <> Done -> Forall (fun e => is_period_file e.2 = false) new) /\
    (r.1 = Done ->
     exists stations sel rep' daily_df init,
       ex_list_2002 "01" (vars ex_args) = Return stations /\
       stations <> [] /\
       pick_representative_station stations (prefer_usw ex_args)
       = sel :: rep' /\
       daily_df <> [] /\
       let agg := daily_to_period_station daily_df (vars ex_args)
                    (a_freq ex_args) in
       pt_is_empty agg = false /\
       new = init ++ [(out_path ex_args "01", PeriodCsv agg)] /\
       Forall (fun e => is_period_file e.2 = false) init).
Proof.
  split; [by vm_compute|]. split; [by vm_compute|].
  apply (period_file_written_last ex_list_2002 ex_fetch_tmax (Return [])
           ex_args "01" ex_world).
Defined.

(** ** Frames *)

Section frames.
Context {A : Type} `{!EqDecision A}.
Implicit Types (x : A) (l : list A).

Lemma index_of_elem x l :
  x ∈ l -> exists i, index_of x l = Some i /\ l !! i = Some x.
Proof.
  intros Hx. unfold index_of.
  destruct (list_find_elem_of (fun y => y = x) l x Hx eq_refl) as [[i y] E].
  rewrite E. apply list_find_Some in E as (Hi & -> & _). by exists i.
Qed.

Lemma index_of_not_elem x l : x ∉ l -> index_of x l = None.
Proof.
  intros Hx. unfold index_of.
  replace (list_find (fun y => y = x) l) with (@None (nat * A)); [done|].
  symmetry. apply list_find_None, Forall_forall. by intros y Hy ->.
Qed.

Lemma index_of_app_l x l1 l2 :
  x ∈ l1 -> index_of x (l1 ++ l2) = index_of x l1.
Proof.
  intros Hx. unfold index_of.
  destruct (list_find_elem_of (fun y => y = x) l1 x Hx eq_refl) as [[i y] E].
  by rewrite (list_find_app_l _ l1 l2 i y E), E.
Qed.

Lemma index_of_app_r x l1 l2 :
  x ∉ l1 ->
  index_of x (l1 ++ l2) = (fun j => (j + length l1)%nat) <$> index_of x l2.
Proof.
  intros Hx. unfold index_of. rewrite list_find_app_r.
  - by destruct (list_find _ l2) as [[j y]|].
  - apply list_find_None, Forall_forall. by intros y Hy ->.
Qed.

(** Reading a row built column by column. *)
Lemma lookup_tabulated {B} (F : A -> option B) x l :
  (j ← index_of x l; mjoin ((F <$> l) !! j))
  = if decide (x ∈ l) then F x else None.
Proof.
  destruct (decide (x ∈ l)) as [Hx|Hx].
  - destruct (index_of_elem x l Hx) as (i & -> & Hi). simpl.
    by rewrite list_lookup_fmap, Hi.
  - rewrite index_of_not_elem by done. reflexivity.
Qed.

Lemma sorted_unique_elem_of (leb : A -> A -> bool) x l :
  x ∈ sorted_unique leb l <-> x ∈ l.
Proof.
  unfold sorted_unique. by rewrite stable_sort_elem_of, elem_of_remove_dups.
Qed.

Lemma sorted_unique_NoDup (leb : A -> A -> bool) l :
  NoDup (sorted_unique leb l).
Proof.
  unfold sorted_unique. rewrite stable_sort_Permutation.
  apply NoDup_remove_dups.
Qed.

Lemma sorted_unique_nil (leb : A -> A -> bool) l :
  sorted_unique leb l = [] <-> l = [].
Proof.
  split; [|by intros ->].
  intros H. destruct l as [|x l]; [done|].
  assert (x ∈ sorted_unique leb (x :: l)) as Hx
    by (apply sorted_unique_elem_of; left).
  rewrite H in Hx. by apply elem_of_nil in Hx.
Qed.
End frames.

Lemma filter_fmap {A B} (f : A -> B) (P : B -> Prop)
    `{!forall y, Decision (P y)} (l : list A) :
  filter P (f <$> l) = f <$> filter (fun x => P (f x)) l.
Proof.
  induction l as [|x l IH]; [done|]. csimpl.
  rewrite !filter_cons. destruct (decide (P (f x))); csimpl; by rewrite IH.
Qed.

(** Reading a cell of a frame built row by row. *)
Lemma w_cell_rows (idx : list date) (cols : list string)
    (row : date -> list (option Q)) (p : date) (c : string) :
  w_cell (mkwide idx cols (row <$> idx)) p c
  = if decide (p ∈ idx) then j ← index_of c cols; mjoin (row p !! j)
    else None.
Proof.
  unfold w_cell. simpl. destruct (decide (p ∈ idx)) as [Hp|Hp].
  - destruct (index_of_elem p idx Hp) as (i & -> & Hi). simpl.
    destruct (index_of c cols) as [j|]; [|done]. simpl.
    rewrite list_lookup_fmap, Hi. reflexivity.
  - rewrite (index_of_not_elem p idx Hp). reflexivity.
Qed.

Lemma w_cell_not_index (w : wide) (p : date) (c : string) :
  p ∉ w_index w -> w_cell w p c = None.
Proof.
  intros Hp. unfold w_cell. rewrite (index_of_not_elem p _ Hp). reflexivity.
Qed.

Lemma w_cell_not_column (w : wide) (p : date) (c : string) :
  c ∉ w_columns w -> w_cell w p c = None.
Proof.
  intros Hc. unfold w_cell. rewrite (index_of_not_elem c) by done.
  by destruct (index_of p (w_index w)).
Qed.

(** *** Group-by and pivot *)

Section groupby.
Context (agg : list Q -> Q) (d : list prow).


Lemma groupby_agg_keys :
  (fun e : group_key * Q => e.1) <$> groupby_agg agg d
  = sorted_unique group_key_leb (prow_key <$> d).
Proof.
  unfold groupby_agg.
  generalize (sorted_unique group_key_leb (prow_key <$> d)).
  intros keys. induction keys as [|k keys IH]; [done|].
  csimpl. by rewrite IH.
Qed.

Lemma lookup_key_groupby (k : group_key) :
  lookup_key (groupby_agg agg d) k
  = if decide (k ∈ prow_key <$> d) then Some (agg (group_values d k))
    else None.
Proof.
  unfold lookup_key, groupby_agg. rewrite list_find_fmap.
  set (keys := sorted_unique group_key_leb (prow_key <$> d)).
  destruct (decide (k ∈ prow_key <$> d)) as [Hk|Hk].
  - assert (k ∈ keys) as Hk' by by apply sorted_unique_elem_of.
    destruct (list_find_elem_of (fun k' => k' = k) keys k Hk' eq_refl)
      as [[i y] E].
    pose proof E as E'. apply list_find_Some in E' as (_ & -> & _).
    erewrite list_find_ext; [rewrite E|]; done.
  - replace (list_find _ keys) with (@None (nat * group_key)); [done|].
    symmetry. apply list_find_None, Forall_forall.
    intros y Hy. simpl. intros ->. by apply sorted_unique_elem_of in Hy.
Qed.

Lemma pivot_index (p : date) :
  p ∈ w_index (pivot (groupby_agg agg d)) <-> p ∈ (fun r : prow => r.1) <$> d.
Proof.
  unfold pivot. simpl. rewrite sorted_unique_elem_of.
  rewrite (list_fmap_compose (fun e : group_key * Q => e.1)
             (fun k : group_key => k.1)), groupby_agg_keys.
  rewrite !list_elem_of_fmap. split.
  - intros (k & -> & Hk). apply sorted_unique_elem_of in Hk.
    apply list_elem_of_fmap in Hk as (r & -> & Hr). by exists r.
  - intros (r & -> & Hr). exists (prow_key r). split; [done|].
    apply sorted_unique_elem_of, list_elem_of_fmap. by exists r.
Qed.

Lemma pivot_index_NoDup : NoDup (w_index (pivot (groupby_agg agg d))).
Proof. apply sorted_unique_NoDup. Qed.

Lemma pivot_columns (c : string) :
  c ∈ w_columns (pivot (groupby_agg agg d))
  <-> c ∈ (fun r : prow => o_datatype r.2) <$> d.
Proof.
  unfold pivot. simpl. rewrite sorted_unique_elem_of.
  rewrite (list_fmap_compose (fun e : group_key * Q => e.1)
             (fun k : group_key => k.2)), groupby_agg_keys.
  rewrite !list_elem_of_fmap. split.
  - intros (k & -> & Hk). apply sorted_unique_elem_of in Hk.
    apply list_elem_of_fmap in Hk as (r & -> & Hr). by exists r.
  - intros (r & -> & Hr). exists (prow_key r). split; [done|].
    apply sorted_unique_elem_of, list_elem_of_fmap. by exists r.
Qed.

Lemma pivot_not_empty :
  d <> [] -> w_is_empty (pivot (groupby_agg agg d)) = false.
Proof.
  intros Hd. destruct d as [|r d'] eqn:E; [done|]. rewrite <- E.
  assert (r ∈ d) as Hr by (rewrite E; left).
  unfold w_is_empty. apply orb_false_intro; apply is_nil_false; intros Hn.
  - assert (r.1 ∈ w_index (pivot (groupby_agg agg d))) as Hi.
    { apply pivot_index, list_elem_of_fmap. by exists r. }
    rewrite Hn in Hi. by apply elem_of_nil in Hi.
  - assert (o_datatype r.2 ∈ w_columns (pivot (groupby_agg agg d))) as Hi.
    { apply pivot_columns, list_elem_of_fmap. by exists r. }
    rewrite Hn in Hi. by apply elem_of_nil in Hi.
Qed.

(** A cell of the pivot is the reduction of the group of its period and
    variable, and is empty when the group has no row. *)
Lemma w_cell_pivot (p : date) (c : string) :
  w_cell (pivot (groupby_agg agg d)) p c
  = if decide ((p, c) ∈ prow_key <$> d) then Some (agg (group_values d (p, c)))
    else None.
Proof.
  destruct (decide (p ∈ w_index (pivot (groupby_agg agg d)))) as [Hp|Hp];
    [destruct (decide (c ∈ w_columns (pivot (groupby_agg agg d))))
      as [Hc|Hc]|].
  - unfold pivot in *. simpl in *. rewrite w_cell_rows.
    rewrite decide_True by done. rewrite lookup_tabulated.
    rewrite decide_True by done. apply lookup_key_groupby.
  - rewrite w_cell_not_column by done. rewrite decide_False; [done|].
    intros (r & Hk & Hr)%list_elem_of_fmap. apply Hc, pivot_columns.
    apply list_elem_of_fmap. exists r. split; [|done].
    by injection Hk.
  - rewrite w_cell_not_index by done. rewrite decide_False; [done|].
    intros (r & Hk & Hr)%list_elem_of_fmap. apply Hp, pivot_index.
    apply list_elem_of_fmap. exists r. split; [|done].
    by injection Hk.
Qed.
End groupby.

Lemma group_values_nil (d : list prow) (k : group_key) :
  k ∈ prow_key <$> d <-> group_values d k <> [].
Proof.
  unfold group_values. split.
  - intros (r & -> & Hr)%list_elem_of_fmap Hnil.
    apply fmap_nil_inv in Hnil.
    by apply (filter_some (fun r' => prow_key r' = prow_key r) d r Hr).
  - intros Hne.
    destruct (filter (fun r => prow_key r = k) d) as [|r l] eqn:E; [done|].
    assert (r ∈ filter (fun r => prow_key r = k) d) as Hr by (rewrite E; left).
    apply list_elem_of_filter in Hr as [<- Hr].
    apply list_elem_of_fmap. by exists r.
Qed.

(** *** Outer join and column selection *)

Lemma join_outer_index (l r : wide) (p : date) :
  p ∈ w_index (join_outer l r) <-> p ∈ w_index l \/ p ∈ w_index r.
Proof.
  unfold join_outer. simpl. by rewrite sorted_unique_elem_of, elem_of_app.
Qed.

Lemma join_outer_index_NoDup (l r : wide) : NoDup (w_index (join_outer l r)).
Proof. apply sorted_unique_NoDup. Qed.

(** A cell of the outer join comes from the side that has its column, and is
    empty when that side lacks the period. *)
Lemma w_cell_join_outer (l r : wide) (p : date) (c : string) :
  w_cell (join_outer l r) p c
  = if decide (c ∈ w_columns l) then w_cell l p c else w_cell r p c.
Proof.
  unfold join_outer. rewrite w_cell_rows.
  destruct (decide (p ∈ sorted_unique date_leb (w_index l ++ w_index r)))
    as [Hp|Hp].
  - destruct (decide (c ∈ w_columns l)) as [Hc|Hc].
    + rewrite index_of_app_l by done.
      destruct (index_of_elem c _ Hc) as (j & Hj & Hl). rewrite Hj. simpl.
      rewrite lookup_app_l
        by (rewrite length_fmap; by eapply lookup_lt_Some).
      by rewrite list_lookup_fmap, Hl.
    + rewrite index_of_app_r by done.
      destruct (decide (c ∈ w_columns r)) as [Hc'|Hc'].
      * destruct (index_of_elem c _ Hc') as (j & Hj & Hl). rewrite Hj. simpl.
        rewrite lookup_app_r by (rewrite length_fmap; lia).
        rewrite length_fmap, Nat.add_sub.
        by rewrite list_lookup_fmap, Hl.
      * rewrite (index_of_not_elem c _ Hc'). simpl.
        by rewrite w_cell_not_column.
  - rewrite sorted_unique_elem_of, elem_of_app in Hp.
    rewrite !w_cell_not_index by tauto. by destruct (decide _).
Qed.

Lemma reindex_columns_keys (label : string) (w : wide) (wanted : list string) :
  (fun r : date * list (option Q) => r.1)
    <$> pt_rows (reindex_columns label w wanted) = w_index w.
Proof.
  unfold reindex_columns. simpl. generalize (w_index w).
  intros idx. induction idx as [|p idx IH]; [done|]. csimpl. by rewrite IH.
Qed.

Lemma pt_cell_reindex_columns (label : string) (w : wide)
    (wanted : list string) (p : date) (v : string) :
  pt_cell (reindex_columns label w wanted) p v
  = if decide (v ∈ wanted) then w_cell w p v else None.
Proof.
  unfold pt_cell, reindex_columns. simpl.
  set (wvars := filter (fun v => v ∈ w_columns w) wanted).
  rewrite list_find_fmap.
  destruct (decide (p ∈ w_index w)) as [Hp|Hp].
  - destruct (list_find_elem_of (fun q => q = p) (w_index w) p Hp eq_refl)
      as [[i q] E].
    pose proof E as E'. apply list_find_Some in E' as (_ & -> & _).
    erewrite list_find_ext; [rewrite E|done]. simpl.
    rewrite lookup_tabulated.
    destruct (decide (v ∈ wvars)) as [Hv|Hv].
    + apply list_elem_of_filter in Hv as [_ Hv]. by rewrite decide_True.
    + destruct (decide (v ∈ wanted)) as [Hw|Hw]; [|done].
      rewrite w_cell_not_column; [done|]. intros Hc. apply Hv.
      by apply list_elem_of_filter.
  - replace (list_find _ (w_index w)) with (@None (nat * date)).
    + simpl. rewrite w_cell_not_index by done. by destruct (decide _).
    + symmetry. apply list_find_None, Forall_forall.
      intros y Hy. simpl. by intros ->.
Qed.

(** ** The aggregator *)


Section aggregator.
Context (daily_df : list obs) (wanted_vars : list string) (f : freq).


Lemma daily_to_period_station_unfold :
  daily_to_period_station daily_df wanted_vars f =
  if is_nil daily_df then empty_table
  else if is_nil (kept daily_df wanted_vars f) then empty_table
  else
    let wide_sum :=
      wide_of Qsum (group_rows daily_df wanted_vars f is_sum_var) in
    let wide_mean :=
      wide_of Qmean
              (group_rows daily_df wanted_vars f (is_mean_var wanted_vars)) in
    if w_is_empty wide_sum && w_is_empty wide_mean then empty_table
    else
      reindex_columns (label_col f)
        (if w_is_empty wide_sum then wide_mean
         else if w_is_empty wide_mean then wide_sum
         else join_outer wide_mean wide_sum) wanted_vars.
Proof.
  unfold daily_to_period_station, group_rows, wide_of, is_sum_var,
    is_mean_var, kept.
  destruct (is_nil daily_df); [done|].
  destruct (filter _ daily_df) as [|o l] eqn:E; [done|]. reflexivity.
Qed.

Lemma elem_of_kept (r : prow) :
  r ∈ kept daily_df wanted_vars f <->
  r.2 ∈ daily_df /\ o_datatype r.2 ∈ wanted_vars /\
  r.1 = period_start f (o_date r.2).
Proof.
  unfold kept. rewrite list_elem_of_fmap. split.
  - intros (o & -> & [Hw Ho]%list_elem_of_filter). done.
  - intros (Ho & Hw & Hp). exists r.2. split.
    + destruct r as [p o]. simpl in *. by subst.
    + by apply list_elem_of_filter.
Qed.

Lemma kept_periods (p : date) :
  p ∈ (fun r : prow => r.1) <$> kept daily_df wanted_vars f
  <-> spec_periods daily_df wanted_vars f p.
Proof.
  unfold spec_periods. rewrite list_elem_of_fmap. split.
  - intros (r & -> & (Ho & Hw & Hp)%elem_of_kept). by exists r.2.
  - intros (o & Ho & Hw & <-). exists (period_start f (o_date o), o).
    split; [done|]. by apply elem_of_kept.
Qed.

Section group.
Context (P : string -> Prop) `{!forall x, Decision (P x)}
        (agg : list Q -> Q).

Lemma wide_of_is_empty (d : list prow) :
  w_is_empty (wide_of agg d) = is_nil d.
Proof.
  unfold wide_of. destruct (is_nil d) eqn:E; [done|].
  by apply pivot_not_empty, is_nil_false.
Qed.

Lemma w_cell_wide_of (d : list prow) (p : date) (c : string) :
  w_cell (wide_of agg d) p c
  = if is_nil (group_values d (p, c)) then None
    else Some (agg (group_values d (p, c))).
Proof.
  unfold wide_of. destruct (is_nil d) eqn:E.
  - apply is_nil_true in E as ->. done.
  - rewrite w_cell_pivot.
    destruct (decide ((p, c) ∈ prow_key <$> d)) as [Hk|Hk].
    + apply group_values_nil, is_nil_false in Hk. by rewrite Hk.
    + destruct (is_nil (group_values d (p, c))) eqn:En; [done|].
      by apply is_nil_false, group_values_nil in En.
Qed.

Lemma wide_of_index (d : list prow) (p : date) :
  p ∈ w_index (wide_of agg d) <-> p ∈ (fun r : prow => r.1) <$> d.
Proof.
  unfold wide_of. destruct (is_nil d) eqn:E.
  - apply is_nil_true in E as ->. done.
  - apply pivot_index.
Qed.

Lemma wide_of_index_NoDup (d : list prow) : NoDup (w_index (wide_of agg d)).
Proof.
  unfold wide_of. destruct (is_nil d); [constructor|].
  apply pivot_index_NoDup.
Qed.

Lemma wide_of_columns (d : list prow) (c : string) :
  c ∈ w_columns (wide_of agg d)
  <-> c ∈ (fun r : prow => o_datatype r.2) <$> d.
Proof.
  unfold wide_of. destruct (is_nil d) eqn:E.
  - apply is_nil_true in E as ->. done.
  - apply pivot_columns.
Qed.

(** The values of a group are the daily values of its bucket. *)
Lemma group_values_bucket (p : date) (v : string) :
  group_values (group_rows daily_df wanted_vars f P) (p, v)
  = if decide (P v /\ v ∈ wanted_vars) then bucket_values daily_df f p v
    else [].
Proof.
  unfold group_values, group_rows, kept, bucket_values.
  rewrite !filter_fmap, !list_filter_filter, <- list_fmap_compose.
  destruct (decide (P v /\ v ∈ wanted_vars)) as [[HP Hw]|Hn].
  - f_equal. apply list_filter_iff. intros o. unfold prow_key. simpl.
    split.
    + intros Hall. destruct_and!. unfold prow_key in *.
      by simplify_eq/=.
    + intros [<- <-]. by split_and!.
  - rewrite filter_none; [done|].
    intros o _ Hall. destruct_and!. unfold prow_key in *.
    simplify_eq/=. by apply Hn.
Qed.

Lemma group_rows_columns (c : string) :
  c ∈ (fun r : prow => o_datatype r.2) <$> group_rows daily_df wanted_vars f P
  -> P c.
Proof.
  intros (r & -> & Hr)%list_elem_of_fmap.
  by apply list_elem_of_filter in Hr as [? _].
Qed.
End group.

Lemma is_mean_var_spec (v : string) :
  is_mean_var wanted_vars v <-> v ∈ wanted_vars /\ ~ is_sum_var v.
Proof. unfold is_mean_var, is_sum_var. apply list_elem_of_difference. Qed.

(** Every kept row goes to the sum group or to the mean group. *)
Lemma kept_split (r : prow) :
  r ∈ kept daily_df wanted_vars f <->
  r ∈ group_rows daily_df wanted_vars f is_sum_var \/
  r ∈ group_rows daily_df wanted_vars f (is_mean_var wanted_vars).
Proof.
  unfold group_rows. rewrite !list_elem_of_filter. split.
  - intros Hr. pose proof Hr as (_ & Hw & _)%elem_of_kept.
    destruct (decide (is_sum_var (o_datatype r.2))); [by left|].
    right. split; [|done]. by apply is_mean_var_spec.
  - by intros [[_ ?]|[_ ?]].
Qed.


Lemma w_cell_merged (p : date) (v : string) :
  v ∈ wanted_vars ->
  w_cell (merged daily_df wanted_vars f) p v
  = spec_cell daily_df wanted_vars f p v.
Proof.
  intros Hw. unfold spec_cell. rewrite decide_True by done. simpl.
  set (wide_sum := wide_of Qsum (group_rows daily_df wanted_vars f is_sum_var)).
  set (wide_mean :=
         wide_of Qmean
                 (group_rows daily_df wanted_vars f (is_mean_var wanted_vars))).
  assert (w_cell (merged daily_df wanted_vars f) p v =
          if decide (is_sum_var v) then w_cell wide_sum p v
          else w_cell wide_mean p v) as ->.
  { assert (is_sum_var v -> v ∉ w_columns wide_mean) as Hnm.
    { intros Hs Hc. apply wide_of_columns, group_rows_columns in Hc.
      apply is_mean_var_spec in Hc as [_ Hc]. done. }
    assert (~ is_sum_var v -> v ∉ w_columns wide_sum) as Hns.
    { intros Hs Hc. by apply wide_of_columns, group_rows_columns in Hc. }
    unfold merged. fold wide_sum wide_mean.
    destruct (w_is_empty wide_sum) eqn:Es.
    - destruct (decide (is_sum_var v)) as [Hs|Hs]; [|done].
      rewrite w_cell_not_column by auto.
      unfold wide_sum in *. rewrite wide_of_is_empty in Es.
      apply is_nil_true in Es. by rewrite Es.
    - destruct (w_is_empty wide_mean) eqn:Em.
      + destruct (decide (is_sum_var v)) as [Hs|Hs]; [done|].
        rewrite w_cell_not_column by auto.
        unfold wide_mean in *. rewrite wide_of_is_empty in Em.
        apply is_nil_true in Em. by rewrite Em.
      + rewrite w_cell_join_outer.
        destruct (decide (is_sum_var v)) as [Hs|Hs].
        * by rewrite decide_False by auto.
        * destruct (decide (v ∈ w_columns wide_mean)); [done|].
          by rewrite !w_cell_not_column by auto. }
  unfold wide_sum, wide_mean. rewrite !w_cell_wide_of, !group_values_bucket.
  destruct (decide (is_sum_var v)) as [Hs|Hs].
  - rewrite (decide_True (P := is_sum_var v /\ v ∈ wanted_vars)) by done.
    by rewrite (decide_True (P := v ∈ sum_vars)) by done.
  - rewrite (decide_True (P := is_mean_var wanted_vars v /\ v ∈ wanted_vars))
      by (split; [by apply is_mean_var_spec | done]).
    by rewrite (decide_False (P := v ∈ sum_vars)) by done.
Qed.

Lemma merged_index (p : date) :
  p ∈ w_index (merged daily_df wanted_vars f)
  <-> spec_periods daily_df wanted_vars f p.
Proof.
  rewrite <- kept_periods. unfold merged.
  set (ds := group_rows daily_df wanted_vars f is_sum_var).
  set (dm := group_rows daily_df wanted_vars f (is_mean_var wanted_vars)).
  assert (p ∈ (fun r : prow => r.1) <$> kept daily_df wanted_vars f <->
          p ∈ (fun r : prow => r.1) <$> ds \/
          p ∈ (fun r : prow => r.1) <$> dm) as ->.
  { rewrite !list_elem_of_fmap. split.
    - intros (r & -> & [Hr|Hr]%kept_split); [left | right]; by exists r.
    - intros [(r & -> & Hr)|(r & -> & Hr)]; exists r; split; try done;
        apply kept_split; auto. }
  rewrite !wide_of_is_empty.
  destruct (is_nil ds) eqn:Es.
  - apply is_nil_true in Es. rewrite Es, wide_of_index. simpl.
    rewrite elem_of_nil. tauto.
  - destruct (is_nil dm) eqn:Em.
    + apply is_nil_true in Em. rewrite Em, wide_of_index. simpl.
      rewrite elem_of_nil. tauto.
    + rewrite join_outer_index, !wide_of_index. tauto.
Qed.

Lemma merged_index_NoDup : NoDup (w_index (merged daily_df wanted_vars f)).
Proof.
  unfold merged. destruct (w_is_empty _); [apply wide_of_index_NoDup|].
  destruct (w_is_empty _); [apply wide_of_index_NoDup|].
  apply join_outer_index_NoDup.
Qed.

(** The aggregator returns either the empty table, when no observation is
    kept, or the merged frame with its columns selected. *)
Lemma daily_to_period_station_cases :
  (kept daily_df wanted_vars f = [] /\
   daily_to_period_station daily_df wanted_vars f = empty_table) \/
  (kept daily_df wanted_vars f <> [] /\
   daily_to_period_station daily_df wanted_vars f
   = reindex_columns (label_col f) (merged daily_df wanted_vars f) wanted_vars).
Proof.
  rewrite daily_to_period_station_unfold.
  destruct (is_nil daily_df) eqn:E0.
  { left. apply is_nil_true in E0. unfold kept. by rewrite E0. }
  destruct (is_nil (kept daily_df wanted_vars f)) eqn:E1.
  { left. by apply is_nil_true in E1. }
  apply is_nil_false in E1. right. split; [done|]. simpl.
  rewrite !wide_of_is_empty.
  destruct (is_nil (group_rows daily_df wanted_vars f is_sum_var)) eqn:Es;
    [destruct (is_nil (group_rows daily_df wanted_vars f
                                  (is_mean_var wanted_vars))) eqn:Em|].
  - exfalso. destruct (kept daily_df wanted_vars f) as [|r l] eqn:E; [done|].
    assert (r ∈ kept daily_df wanted_vars f) as Hr by (rewrite E; left).
    apply is_nil_true in Es, Em.
    apply kept_split in Hr as [Hr|Hr];
      [rewrite Es in Hr | rewrite Em in Hr]; by apply elem_of_nil in Hr.
  - unfold merged. by rewrite !wide_of_is_empty, Es.
  - unfold merged. by rewrite !wide_of_is_empty, Es.
Qed.

(** Every cell of the table is the cell of the specification. *)
Lemma pt_cell_daily_to_period_station (p : date) (v : string) :
  pt_cell (daily_to_period_station daily_df wanted_vars f) p v
  = spec_cell daily_df wanted_vars f p v.
Proof.
  destruct daily_to_period_station_cases as [[Hk ->]|[Hk ->]].
  - unfold spec_cell. destruct (decide (v ∈ wanted_vars)) as [Hw|Hw]; [|done].
    simpl. unfold bucket_values. rewrite filter_none; [done|].
    intros o Ho [Hp Hv].
    assert ((period_start f (o_date o), o) ∈ kept daily_df wanted_vars f)
      as Hin.
    { apply elem_of_kept. simpl. by rewrite Hv. }
    rewrite Hk in Hin. by apply elem_of_nil in Hin.
  - rewrite pt_cell_reindex_columns.
    destruct (decide (v ∈ wanted_vars)) as [Hw|Hw].
    + by apply w_cell_merged.
    + unfold spec_cell. by rewrite decide_False.
Qed.

(** The periods of the table are the periods of the kept observations, each
    once. *)
Lemma daily_to_period_station_keys :
  let keys := (fun r : date * list (option Q) => r.1)
                <$> pt_rows (daily_to_period_station daily_df wanted_vars f) in
  NoDup keys /\
  forall p, p ∈ keys <-> spec_periods daily_df wanted_vars f p.
Proof.
  intros keys. subst keys.
  destruct daily_to_period_station_cases as [[Hk ->]|[Hk ->]].
  - simpl. split; [constructor|]. intros p.
    rewrite <- kept_periods, Hk. done.
  - rewrite reindex_columns_keys. split; [apply merged_index_NoDup|].
    apply merged_index.
Qed.
End aggregator.

(** C6. In the table of the aggregator, the cell of a period and of a
    requested variable that has daily values in the period is their sum when
    the variable is an accumulate variable (PRCP, SNOW) and their arithmetic
    mean otherwise. *)
Theorem period_value_sum_or_mean (daily_df : list obs)
    (wanted_vars : list string) (f : freq) (p : date) (v : string) :
  v ∈ wanted_vars ->
  bucket_values daily_df f p v <> [] ->
  pt_cell (daily_to_period_station daily_df wanted_vars f) p v
  = Some (if decide (v ∈ ["PRCP"; "SNOW"])
          then fold_left Qplus (bucket_values daily_df f p v) 0%Q
          else (fold_left Qplus (bucket_values daily_df f p v) 0%Q
                / inject_Z (Z.of_nat
                              (length (bucket_values daily_df f p v))))%Q).
Proof.
  intros Hw Hne. rewrite pt_cell_daily_to_period_station.
  unfold spec_cell. rewrite decide_True by done. simpl.
  apply is_nil_false in Hne. by rewrite Hne.
Qed.

(** C6, instances: January 2024 of the example frame, precipitation summed
    (1/2 + 1/4) and maximum temperature averaged ((10 + 20) / 2). *)
Lemma period_value_sum_or_mean_witness :
  (pt_cell (daily_to_period_station ex_daily ["TMAX"; "PRCP"; "SNOW"] monthly)
           (mkdate 2024 1 1) "PRCP"
   = Some (fold_left Qplus [(1 # 2)%Q; (1 # 4)%Q] 0%Q)) /\
  (pt_cell (daily_to_period_station ex_daily ["TMAX"; "PRCP"; "SNOW"] monthly)
           (mkdate 2024 1 1) "TMAX"
   = Some (fold_left Qplus [10%Q; 20%Q] 0%Q / inject_Z 2)%Q).
Proof.
  split.
  - apply (period_value_sum_or_mean ex_daily ["TMAX"; "PRCP"; "SNOW"] monthly
             (mkdate 2024 1 1) "PRCP").
    + right; left.
    + by vm_compute.
  - apply (period_value_sum_or_mean ex_daily ["TMAX"; "PRCP"; "SNOW"] monthly
             (mkdate 2024 1 1) "TMAX").
    + left.
    + by vm_compute.
Defined.

(** C7. The table of the aggregator has exactly one row per period of the
    requested observations: no period twice, every such period present and
    no other; a cell is empty exactly when its period has no daily value of
    its variable, so a period with only accumulate variables (or only
    averaged ones) has its row, with the columns of the other group empty. *)
Theorem one_row_per_period (daily_df : list obs) (wanted_vars : list string)
    (f : freq) :
  let t := daily_to_period_station daily_df wanted_vars f in
  let keys := (fun r : date * list (option Q) => r.1) <$> pt_rows t in
  NoDup keys /\
  (forall p, p ∈ keys <->
             exists o, o ∈ daily_df /\ o_datatype o ∈ wanted_vars /\
                       period_start f (o_date o) = p) /\
  (forall p v, v ∈ wanted_vars ->
     (pt_cell t p v = None <-> bucket_values daily_df f p v = [])) /\
  (forall p,
     p ∈ keys ->
     (forall o, o ∈ daily_df -> o_datatype o ∈ wanted_vars ->
                period_start f (o_date o) = p -> o_datatype o ∈ sum_vars) ->
     forall v, v ∉ sum_vars -> pt_cell t p v = None) /\
  (forall p,
     p ∈ keys ->
     (forall o, o ∈ daily_df -> o_datatype o ∈ wanted_vars ->
                period_start f (o_date o) = p -> o_datatype o ∉ sum_vars) ->
     forall v, v ∈ sum_vars -> pt_cell t p v = None).
Proof.
  intros t keys.
  destruct (daily_to_period_station_keys daily_df wanted_vars f) as [Hnd Hk].
  assert (Hcell : forall p v, v ∈ wanted_vars ->
            (pt_cell t p v = None <-> bucket_values daily_df f p v = [])).
  { intros p v Hw. unfold t. rewrite pt_cell_daily_to_period_station.
    unfold spec_cell. rewrite decide_True by done. simpl.
    destruct (is_nil _) eqn:E.
    - by apply is_nil_true in E.
    - apply is_nil_false in E. done. }
  assert (Hout : forall p v, v ∉ wanted_vars -> pt_cell t p v = None).
  { intros p v Hw. unfold t. rewrite pt_cell_daily_to_period_station.
    unfold spec_cell. by rewrite decide_False. }
  split; [done|]. split; [done|]. split; [done|]. split.
  - intros p _ Honly v Hv.
    destruct (decide (v ∈ wanted_vars)) as [Hw|Hw]; [|by apply Hout].
    apply Hcell; [done|]. unfold bucket_values. rewrite filter_none; [done|].
    intros o Ho [Hp Hd]. apply Hv. rewrite <- Hd. apply Honly; try done.
    by rewrite Hd.
  - intros p _ Honly v Hv.
    destruct (decide (v ∈ wanted_vars)) as [Hw|Hw]; [|by apply Hout].
    apply Hcell; [done|]. unfold bucket_values. rewrite filter_none; [done|].
    intros o Ho [Hp Hd]. apply (Honly o); try done; by rewrite Hd.
Qed.

(** C7, an instance: in the example frame February 2024 has only an averaged
    variable and March 2024 only an accumulate variable; each has its row. *)
Lemma one_row_per_period_witness :
  pt_rows (daily_to_period_station ex_daily ["TMAX"; "PRCP"; "SNOW"] monthly)
  = [ (mkdate 2024 1 1, [Some (30 # 2)%Q; Some (6 # 8)%Q; None]);
      (mkdate 2024 2 1, [Some (63 # 2)%Q; None; None]);
      (mkdate 2024 3 1, [None; None; Some 3%Q]) ] /\
  NoDup ((fun r : date * list (option Q) => r.1)
           <$> pt_rows (daily_to_period_station ex_daily
                          ["TMAX"; "PRCP"; "SNOW"] monthly)).
Proof.
  split; [by vm_compute|].
  apply (one_row_per_period ex_daily ["TMAX"; "PRCP"; "SNOW"] monthly).
Defined.

Section req_json_more.
Context {J : Type} (empty_json : J) (get : Z -> reply J) (max_retry : Z).

(** One retried attempt below the ceiling passes to the rest of the loop,
    with its backoff logged. *)
Local Ltac logged := eexists; split; [|reflexivity]; reflexivity.

Lemma req_loop_retried (k : Z) (rest : list Z) (st : req_state) :
  k < max_retry -> retried (get k) = true ->
  exists st', slept st' = slept st ++ [k] /\
    req_loop empty_json get max_retry (k :: rest) st
    = req_loop empty_json get max_retry rest st'.
Proof.
  intros Hk Hr. assert ((k <? max_retry) = true) as Hlt by (apply Z.ltb_lt; lia).
  simpl. destruct (get k) as [e|code text]; simpl in *.
  - unfold handle_exception. rewrite Hr, Hlt. logged.
  - destruct (code =? 429); [logged|].
    destruct (bool_decide (code ∈ [500; 502; 503; 504])); [logged|].
    apply bool_decide_eq_true in Hr as [e He].
    destruct ((400 <=? code) && (code <? 600)).
    { unfold handle_exception. simpl. rewrite Hlt. logged. }
    destruct text; try done.
    destruct (code =? 204); [done|]. rewrite Hlt. logged.
Qed.

Lemma req_loop_decisive (k : Z) (rest : list Z) (st : req_state) :
  retried (get k) = false ->
  req_loop empty_json get max_retry (k :: rest) st
  = (reply_result empty_json (get k), st).
Proof.
  intros Hr. simpl. destruct (get k) as [e|code text]; simpl in *.
  - unfold handle_exception. by rewrite Hr.
  - apply bool_decide_eq_false in Hr.
    destruct ((400 <=? code) && (code <? 600)) eqn:E400.
    { exfalso. apply Hr. by eexists. }
    destruct (Z.eqb_spec code 429) as [->|_]; [by vm_compute in E400|].
    case_bool_decide as Hc.
    { repeat (apply elem_of_cons in Hc as [->|Hc]; [by vm_compute in E400|]).
      by apply elem_of_nil in Hc. }
    destruct text as [|js|]; [done | by destruct (code =? 204) |].
    destruct (code =? 204) eqn:E204; [done|].
    exfalso. apply Hr. by eexists.
Qed.

Lemma req_loop_first_decisive (n : nat) (k : Z) (st : req_state) (rest : list Z) :
  k + Z.of_nat n <= max_retry ->
  (forall a, k <= a < k + Z.of_nat n -> retried (get a) = true) ->
  retried (get (k + Z.of_nat n)) = false ->
  exists st', slept st' = slept st ++ seqZ k (Z.of_nat n) /\
    req_loop empty_json get max_retry (seqZ k (Z.of_nat n + 1) ++ rest) st
    = (reply_result empty_json (get (k + Z.of_nat n)), st').
Proof.
  revert k st. induction n as [|n IH]; intros k st Hk Hall Hdec.
  - change (Z.of_nat 0 + 1) with 1. change (Z.of_nat 0) with 0 in *.
    rewrite (seqZ_cons k 1) by lia. rewrite !seqZ_nil by lia. simpl app.
    replace (k + 0) with k in * by lia.
    exists st. split; [by rewrite app_nil_r|].
    by apply req_loop_decisive.
  - rewrite (seqZ_cons k (Z.of_nat (S n) + 1)) by lia.
    replace (Z.pred (Z.of_nat (S n) + 1)) with (Z.of_nat n + 1) by lia.
    rewrite <- app_comm_cons.
    destruct (req_loop_retried k (seqZ (Z.succ k) (Z.of_nat n + 1) ++ rest) st)
      as (st1 & Hs1 & ->); [lia | apply Hall; lia |].
    destruct (IH (Z.succ k) st1) as (st' & Hs' & Heq).
    + lia.
    + intros a Ha. apply Hall. lia.
    + by replace (Z.succ k + Z.of_nat n) with (k + Z.of_nat (S n)) by lia.
    + exists st'. split.
      * rewrite Hs', Hs1, <- app_assoc. f_equal.
        rewrite (seqZ_cons k (Z.of_nat (S n))) by lia. simpl. f_equal. f_equal. lia.
      * rewrite Heq. do 3 f_equal. lia.
Qed.

(** X2. [req_json]: when the replies before attempt [k] are failures the
    loop retries and the reply of attempt [k] is not, the call ends with
    what that reply stands for (its JSON, the empty dict for status 204 or
    a blank body, or the exception raised), after one backoff per earlier
    attempt and no later request. *)
Theorem req_json_first_decisive (k : Z) :
  1 <= k <= max_retry ->
  (forall a, 1 <= a < k -> retried (get a) = true) ->
  retried (get k) = false ->
  (req_json empty_json get max_retry).1 = reply_result empty_json (get k) /\
  slept (req_json empty_json get max_retry).2 = seqZ 1 (k - 1).
Proof.
  intros Hk Hall Hdec. unfold req_json, range.
  replace (max_retry + 1 - 1)
    with ((Z.of_nat (Z.to_nat (k - 1)) + 1) + (max_retry - k)) by lia.
  rewrite seqZ_app by lia.
  destruct (req_loop_first_decisive (Z.to_nat (k - 1)) 1 (mkreq None [])
              (seqZ (1 + (Z.of_nat (Z.to_nat (k - 1)) + 1)) (max_retry - k)))
    as (st' & Hs & ->).
  - lia.
  - intros a Ha. apply Hall. lia.
  - by replace (1 + Z.of_nat (Z.to_nat (k - 1))) with k by lia.
  - simpl. split; [f_equal; f_equal; lia|]. rewrite Hs. simpl. f_equal. lia.
Qed.

(** The backoffs of a loop are those of consecutive attempts. *)
Lemma req_loop_slept (n : nat) (k : Z) (st : req_state) :
  exists m : nat, (m <= n)%nat /\
    slept (req_loop empty_json get max_retry (seqZ k (Z.of_nat n)) st).2
    = slept st ++ seqZ k (Z.of_nat m).
Proof.
  revert k st. induction n as [|n IH]; intros k st.
  - exists 0%nat. split; [done|]. rewrite !seqZ_nil by lia. simpl.
    rewrite app_nil_r. by destruct (last_exc st).
  - rewrite seqZ_cons by lia.
    replace (Z.pred (Z.of_nat (S n))) with (Z.of_nat n) by lia.
    assert (Hstop : forall p : result J * req_state, slept p.2 = slept st ->
              exists m : nat, (m <= S n)%nat /\
                slept p.2 = slept st ++ seqZ k (Z.of_nat m)).
    { intros p Hp. exists 0%nat. split; [lia|].
      by rewrite seqZ_nil, app_nil_r by lia. }
    assert (Hgo : forall st', slept st' = slept st ++ [k] ->
              exists m : nat, (m <= S n)%nat /\
                slept (req_loop empty_json get max_retry
                         (seqZ (Z.succ k) (Z.of_nat n)) st').2
                = slept st ++ seqZ k (Z.of_nat m)).
    { intros st' Hst'. destruct (IH (Z.succ k) st') as (m & Hm & ->).
      exists (S m). split; [lia|]. rewrite Hst', <- app_assoc. f_equal.
      rewrite (seqZ_cons k (Z.of_nat (S m))) by lia. simpl. f_equal. f_equal. lia. }
    revert Hgo. generalize (seqZ (Z.succ k) (Z.of_nat n)). intros rest Hgo.
    simpl. destruct (get k) as [e|code text].
    + unfold handle_exception. destruct (is_request_exception e); [|by apply Hstop].
      destruct (k <? max_retry); [by apply Hgo | by apply Hstop].
    + destruct (code =? 429); [by apply Hgo|].
      destruct (bool_decide _); [by apply Hgo|].
      destruct (_ && _).
      { unfold handle_exception. simpl.
        destruct (k <? max_retry); [by apply Hgo | by apply Hstop]. }
      destruct text; try by apply Hstop.
      * destruct (code =? 204); by apply Hstop.
      * destruct (code =? 204); [by apply Hstop|].
        destruct (k <? max_retry); [by apply Hgo | by apply Hstop].
Qed.

Lemma req_json_slept_seqZ :
  exists m : nat, Z.of_nat m <= Z.max 0 max_retry /\
    slept (req_json empty_json get max_retry).2 = seqZ 1 (Z.of_nat m).
Proof.
  unfold req_json, range.
  destruct (req_loop_slept (Z.to_nat (max_retry + 1 - 1)) 1 (mkreq None []))
    as (m & Hm & Hs).
  exists m. split; [lia|]. simpl in Hs. rewrite <- Hs. do 3 f_equal.
  destruct (Z.le_gt_cases 0 (max_retry + 1 - 1)).
  - by rewrite Z2Nat.id.
  - rewrite Z2Nat.nonpos by lia. by rewrite !seqZ_nil by lia.
Qed.

(** X3. [req_json]: the attempts followed by a backoff are the first
    attempts of the loop, each once and in order; in particular there are
    at most [max_retry] backoffs. *)
Theorem req_json_slept_prefix :
  slept (req_json empty_json get max_retry).2 `prefix_of`
  range 1 (max_retry + 1).
Proof.
  destruct req_json_slept_seqZ as (m & Hm & ->). unfold range.
  exists (seqZ (1 + Z.of_nat m) (max_retry + 1 - 1 - Z.of_nat m)).
  destruct (Z.le_gt_cases 0 max_retry).
  - rewrite <- seqZ_app by lia. f_equal. lia.
  - assert (m = 0%nat) as -> by lia. by rewrite !seqZ_nil by lia.
Qed.
End req_json_more.


Lemma req_json_first_decisive_witness :
  (req_json "{}"%string
     (fun a => if a <? 3 then Response 503 Blank
               else Response 200 (Json "page"%string)) 3).1
  = Return "page"%string.
Proof.
  refine (proj1 (req_json_first_decisive "{}"%string _ 3 3 _ _ _)).
  - lia.
  - intros a Ha. assert (a = 1 \/ a = 2) as [->| ->] by lia; reflexivity.
  - reflexivity.
Defined.

Lemma backoff_delay_mono (attempt : Z) (j j' : Q) :
  (j <= j')%Q -> (backoff_delay attempt j <= backoff_delay attempt j')%Q.
Proof. intros Hj. unfold backoff_delay. cbv zeta. lra. Qed.

Lemma backoff_delay_nonneg (attempt : Z) (j : Q) :
  (0 <= j)%Q -> (0 <= backoff_delay attempt j)%Q.
Proof.
  intros Hj. unfold backoff_delay. cbv zeta.
  pose proof (Qpower_0_lt 2 (attempt - 1) ltac:(reflexivity)) as Hp.
  destruct (Qle_bool _ _); lra.
Qed.

Lemma total_backoff_nonneg (slept : list Z) :
  (0 <= total_backoff (fun _ => 3 # 10) slept)%Q.
Proof.
  induction slept as [|a l IH]; [done|].
  change (0 <= backoff_delay a (3 # 10) + total_backoff (fun _ => 3 # 10) l)%Q.
  pose proof (backoff_delay_nonneg a (3 # 10) ltac:(done)). lra.
Qed.

Lemma total_backoff_prefix (jitter : Z -> Q) (l l' : list Z) :
  (forall a, (jitter a <= 3 # 10)%Q) -> l `prefix_of` l' ->
  (total_backoff jitter l <= total_backoff (fun _ => 3 # 10) l')%Q.
Proof.
  intros Hj [k ->]. induction l as [|a l IH].
  - apply total_backoff_nonneg.
  - change (backoff_delay a (jitter a) + total_backoff jitter l
            <= backoff_delay a (3 # 10)
               + total_backoff (fun _ => 3 # 10) (l ++ k))%Q.
    pose proof (backoff_delay_mono a _ _ (Hj a)). lra.
Qed.

(** X4. [req_json] and [backoff_sleep]: whatever the service answers and
    whatever the random draws (at most 0.3 each), the time a call spends in
    backoff is at most that of [max_retry] backoffs with the largest draw;
    with the default of three attempts that is 4.4 seconds. *)
Theorem req_json_total_backoff {J} (empty_json : J) (get : Z -> reply J)
    (max_retry : Z) (jitter : Z -> Q) :
  (forall a, (jitter a <= 3 # 10)%Q) ->
  (total_backoff jitter (slept (req_json empty_json get max_retry).2)
   <= total_backoff (fun _ => 3 # 10) (range 1 (max_retry + 1)))%Q.
Proof.
  intros Hj. apply total_backoff_prefix; [done|].
  destruct (req_json_slept_seqZ empty_json get max_retry) as (m & Hm & ->).
  unfold range.
  exists (seqZ (1 + Z.of_nat m) (max_retry + 1 - 1 - Z.of_nat m)).
  destruct (Z.le_gt_cases 0 max_retry).
  - rewrite <- seqZ_app by lia. f_equal. lia.
  - assert (m = 0%nat) as -> by lia. by rewrite !seqZ_nil by lia.
Qed.

Lemma req_json_total_backoff_witness :
  (total_backoff (fun _ => 1 # 10)
     (slept (req_json "{}"%string ex_always_429 RETRY).2)
   <= total_backoff (fun _ => 3 # 10) (range 1 (RETRY + 1)))%Q /\
  (total_backoff (fun _ => 3 # 10) (range 1 (RETRY + 1)) == 22 # 5)%Q.
Proof.
  split; [|reflexivity].
  refine (req_json_total_backoff "{}"%string ex_always_429 RETRY
            (fun _ => 1 # 10) _).
  intros a. done.
Defined.

Section paginate_facts.
Context {A : Type} (request : Z -> result (gmap string (list A))).

Lemma paginate_full (n : nat) (fuel : nat) (rows : list A) (k : Z)
    (requested : list Z) :
  (forall i, k <= i < k + Z.of_nat n ->
     exists js, request (offset_of i) = Return js /\ results_of js <> []) ->
  paginate (n + fuel) request rows (offset_of k) requested
  = paginate fuel request
      (rows ++ concat ((fun i => page request (offset_of i))
                         <$> seqZ k (Z.of_nat n)))
      (offset_of (k + Z.of_nat n))
      (requested ++ (offset_of <$> seqZ k (Z.of_nat n))).
Proof.
  revert rows k requested. induction n as [|n IH]; intros rows k requested Hf.
  - rewrite !seqZ_nil by lia. simpl. rewrite !app_nil_r. do 2 f_equal. lia.
  - destruct (Hf k) as (js & Hjs & Hne); [lia|].
    change (S n + fuel)%nat with (S (n + fuel)). simpl paginate at 1.
    rewrite Hjs. destruct (is_nil (results_of js)) eqn:E.
    { by apply is_nil_true in E. }
    replace (offset_of k + PAGE_LIMIT) with (offset_of (Z.succ k))
      by (unfold offset_of, PAGE_LIMIT; lia).
    rewrite IH by (intros i Hi; apply Hf; lia).
    rewrite (seqZ_cons k (Z.of_nat (S n))) by lia.
    replace (Z.pred (Z.of_nat (S n))) with (Z.of_nat n) by lia.
    assert (page request (offset_of k) = results_of js) as Hp
      by (unfold page; by rewrite Hjs).
    rewrite !fmap_cons. simpl concat. rewrite Hp.
    rewrite <- !app_assoc. simpl.
    by replace (Z.succ k + Z.of_nat n) with (k + Z.of_nat (S n)) by lia.
Qed.

(** The run is still going after [fuel] requests exactly when each of them
    returned rows. *)
Lemma paginate_None (fuel : nat) (rows : list A) (k : Z)
    (requested : list Z) :
  (paginate fuel request rows (offset_of k) requested).1 = None <->
  (forall i, k <= i < k + Z.of_nat fuel ->
     exists js, request (offset_of i) = Return js /\ results_of js <> []).
Proof.
  revert rows k requested.
  induction fuel as [|fuel IH]; intros rows k requested.
  - split; [intros _ i Hi; lia | done].
  - simpl paginate.
    replace (offset_of k + PAGE_LIMIT) with (offset_of (Z.succ k))
      by (unfold offset_of, PAGE_LIMIT; lia).
    destruct (request (offset_of k)) as [js|e] eqn:Hk.
    + destruct (is_nil (results_of js)) eqn:E.
      * apply is_nil_true in E. split; [done|]. intros Hf.
        destruct (Hf k) as (js' & Hjs' & Hne); [lia|]. congruence.
      * apply is_nil_false in E. rewrite IH. split.
        -- intros Hf i Hi. destruct (decide (i = k)) as [->|]; [by eauto|].
           apply Hf. lia.
        -- intros Hf i Hi. apply Hf. lia.
    + split; [done|]. intros Hf.
      destruct (Hf k) as (js' & Hjs' & Hne); [lia|]. congruence.
Qed.

Lemma paginate_stop (n fuel : nat) :
  full_pages request n -> (n < fuel)%nat ->
  page request (offset_of (Z.of_nat n)) = [] ->
  paginate fuel request [] 1 []
  = (Some match request (offset_of (Z.of_nat n)) with
          | Raise e => Raise e
          | Return _ =>
              Return (concat ((fun i => page request (offset_of i))
                                <$> seqZ 0 (Z.of_nat n)))
          end,
     offset_of <$> seqZ 0 (Z.of_nat n + 1)).
Proof.
  intros Hf Hn Hp. replace fuel with (n + S (fuel - S n))%nat at 1 by lia.
  change 1 with (offset_of 0) at 1.
  rewrite paginate_full by (intros i Hi; apply Hf; lia).
  rewrite !app_nil_l. simpl paginate. rewrite Z.add_0_l.
  rewrite (seqZ_app 0 (Z.of_nat n) 1), !fmap_app by lia.
  rewrite Z.add_0_l. change (seqZ (Z.of_nat n) 1) with [Z.of_nat n].
  unfold page in Hp.
  destruct (request (offset_of (Z.of_nat n))) as [js|e]; [|done].
  by rewrite Hp.
Qed.

Lemma paginate_Some (fuel : nat) (rows : list A) (k : Z)
    (requested : list Z) (r : result (list A)) (log : list Z) :
  paginate fuel request rows (offset_of k) requested = (Some r, log) ->
  exists n : nat,
    (n < fuel)%nat /\
    (forall i, k <= i < k + Z.of_nat n ->
       exists js, request (offset_of i) = Return js /\ results_of js <> []) /\
    page request (offset_of (k + Z.of_nat n)) = [] /\
    log = requested ++ (offset_of <$> seqZ k (Z.of_nat n + 1)) /\
    r = match request (offset_of (k + Z.of_nat n)) with
        | Raise e => Raise e
        | Return _ =>
            Return (rows ++ concat ((fun i => page request (offset_of i))
                                      <$> seqZ k (Z.of_nat n)))
        end.
Proof.
  revert rows k requested.
  induction fuel as [|fuel IH]; intros rows k requested; [done|].
  simpl paginate.
  replace (offset_of k + PAGE_LIMIT) with (offset_of (Z.succ k))
    by (unfold offset_of, PAGE_LIMIT; lia).
  destruct (request (offset_of k)) as [js|e] eqn:Hk.
  - destruct (is_nil (results_of js)) eqn:E.
    + apply is_nil_true in E. intros [= <- <-]. exists 0%nat.
      rewrite Z.add_0_r. unfold page. rewrite Hk.
      split_and!; [lia | intros i Hi; lia | done | done |].
      by rewrite seqZ_nil, app_nil_r by lia.
    + apply is_nil_false in E. intros H.
      apply IH in H as (n & Hn & Hf & Hp & -> & ->). exists (S n).
      replace (k + Z.of_nat (S n)) with (Z.succ k + Z.of_nat n) by lia.
      assert (page request (offset_of k) = results_of js) as Hpk
        by (unfold page; by rewrite Hk).
      split_and!; [lia | | done | |].
      * intros i Hi. destruct (decide (i = k)) as [->|]; [by eauto|].
        apply Hf. lia.
      * rewrite (seqZ_cons k (Z.of_nat (S n) + 1)) by lia.
        replace (Z.pred (Z.of_nat (S n) + 1)) with (Z.of_nat n + 1) by lia.
        by rewrite fmap_cons, <- app_assoc.
      * rewrite (seqZ_cons k (Z.of_nat (S n))) by lia.
        replace (Z.pred (Z.of_nat (S n))) with (Z.of_nat n) by lia.
        rewrite fmap_cons. simpl concat. rewrite Hpk.
        by rewrite <- app_assoc.
  - intros [= <- <-]. exists 0%nat.
    rewrite Z.add_0_r. unfold page. rewrite Hk.
    split_and!; [lia | intros i Hi; lia | done | done | done].
Qed.
End paginate_facts.

Section drop_duplicates_facts.
Context {A K : Type} `{EqDecision K} (subset : A -> K).

Lemma drop_duplicates_from_filter (seen : list K) (df : list A) (k : K) :
  filter (fun r => subset r = k) (drop_duplicates_from subset seen df)
  = if decide (k ∈ seen) then []
    else take 1 (filter (fun r => subset r = k) df).
Proof.
  revert seen. induction df as [|r df IH]; intros seen.
  - by destruct (decide _).
  - simpl. case_bool_decide as Hin.
    + rewrite IH, filter_cons.
      destruct (decide (subset r = k)) as [<-|Hne]; [|done].
      by destruct (decide (subset r ∈ seen)).
    + rewrite !filter_cons.
      destruct (decide (subset r = k)) as [<-|Hne].
      * rewrite IH. destruct (decide (subset r ∈ seen)); [done|].
        destruct (decide (subset r ∈ subset r :: seen)) as [_|Hk]; [done|].
        destruct Hk. by left.
      * rewrite IH. destruct (decide (k ∈ seen)) as [Hk|Hk].
        -- destruct (decide (k ∈ subset r :: seen)) as [_|Hk']; [done|].
           destruct Hk'. by right.
        -- destruct (decide (k ∈ subset r :: seen)) as [Hk'|_]; [|done].
           by apply elem_of_cons in Hk' as [->|Hk'].
Qed.

Lemma drop_duplicates_from_NoDup (seen : list K) (df : list A) :
  NoDup (subset <$> drop_duplicates_from subset seen df) /\
  forall r, r ∈ drop_duplicates_from subset seen df -> subset r ∉ seen.
Proof.
  revert seen. induction df as [|r df IH]; intros seen.
  - split; [constructor | by intros r Hr%elem_of_nil].
  - simpl. case_bool_decide as Hin; [apply IH|].
    destruct (IH (subset r :: seen)) as [Hnd Hseen]. split.
    + rewrite fmap_cons. constructor; [|done].
      intros (r' & Heq & Hr')%list_elem_of_fmap.
      apply Hseen in Hr'. apply Hr'. rewrite Heq. by left.
    + intros r' [->|Hr']%elem_of_cons; [done|].
      apply Hseen in Hr'. intros Hs. apply Hr'. by right.
Qed.

Lemma drop_duplicates_from_sublist (seen : list K) (df : list A) :
  drop_duplicates_from subset seen df `sublist_of` df.
Proof.
  revert seen. induction df as [|r df IH]; intros seen; [done|].
  simpl. case_bool_decide.
  - by apply sublist_cons.
  - by apply sublist_skip.
Qed.
End drop_duplicates_facts.


(** X5. [fetch_station_year]: when the first [n] pages hold rows and the
    next reply has no [results] (or an empty list), the function returns
    the rows of these pages, concatenated in page order, after requesting
    the offsets 1, 1001, ... of these [n + 1] pages and no other. *)
Theorem fetch_station_year_pages
    (request : Z -> result (gmap string (list obs))) (n fuel : nat)
    (js : gmap string (list obs)) :
  full_pages request n ->
  request (offset_of (Z.of_nat n)) = Return js -> results_of js = [] ->
  (n < fuel)%nat ->
  fetch_station_year fuel request
  = (Some (Return (concat ((fun i => page request (offset_of i))
                             <$> seqZ 0 (Z.of_nat n)))),
     offset_of <$> seqZ 0 (Z.of_nat n + 1)).
Proof.
  intros Hf Hjs Hres Hn. unfold fetch_station_year.
  rewrite (paginate_stop request n fuel Hf Hn).
  - by rewrite Hjs.
  - unfold page. by rewrite Hjs.
Qed.

Lemma fetch_station_year_pages_witness :
  fetch_station_year 5 ex_data_pages
  = (Some (Return [mkobs (mkdate 2002 1 1) "TMAX" "S" "" 10;
                   mkobs (mkdate 2002 1 2) "TMAX" "S" "" 12;
                   mkobs (mkdate 2002 1 3) "TMAX" "S" "" 14]),
     [1; 1001; 2001]).
Proof.
  refine (fetch_station_year_pages ex_data_pages 2 5 ∅ _ _ _ _).
  - intros i Hi. assert (i = 0 \/ i = 1) as [->| ->] by lia;
      (eexists; split; [reflexivity | by vm_compute]).
  - reflexivity.
  - reflexivity.
  - lia.
Defined.

(** X6. [list_stations_for_state]: an exception of [req_json] on a page
    leaves the function, whatever the earlier pages held; no rows are
    returned and no further page is requested. *)
Theorem list_stations_for_state_raises
    (request : Z -> result (gmap string (list station))) (n fuel : nat)
    (e : exn) :
  full_pages request n ->
  request (offset_of (Z.of_nat n)) = Raise e ->
  (n < fuel)%nat ->
  list_stations_for_state fuel request
  = (Some (Raise e), offset_of <$> seqZ 0 (Z.of_nat n + 1)).
Proof.
  intros Hf He Hn. unfold list_stations_for_state.
  rewrite (paginate_stop request n fuel Hf Hn).
  - by rewrite He.
  - unfold page. by rewrite He.
Qed.

Lemma list_stations_for_state_raises_witness :
  list_stations_for_state 3 ex_station_pages_timeout
  = (Some (Raise Timeout), [1; 1001]).
Proof.
  refine (list_stations_for_state_raises ex_station_pages_timeout 1 3
            Timeout _ _ _).
  - intros i Hi. assert (i = 0) as -> by lia.
    eexists; split; [reflexivity | by vm_compute].
  - reflexivity.
  - lia.
Defined.

(** X7. [list_stations_for_state] and [fetch_station_year]: the paging
    loop has no bound of its own; it is still requesting pages after any
    number of requests exactly when every page so far held rows. *)
Theorem paged_requests_unbounded
    (stations_request : Z -> result (gmap string (list station)))
    (data_request : Z -> result (gmap string (list obs))) (fuel : nat) :
  ((list_stations_for_state fuel stations_request).1 = None
   <-> full_pages stations_request fuel) /\
  ((fetch_station_year fuel data_request).1 = None
   <-> full_pages data_request fuel).
Proof.
  split.
  - rewrite <- (paginate_None stations_request fuel [] 0 []).
    unfold list_stations_for_state. change (offset_of 0) with 1.
    destruct (paginate fuel stations_request [] 1 []) as [[[rows|e]|] log];
      done.
  - apply (paginate_None data_request fuel [] 0 []).
Qed.

(** X8. [list_stations_for_state]: the stations returned have distinct
    ids; they are rows of the pages fetched, in the order of the pages, and
    for each id the row kept is the first one with that id. *)
Theorem list_stations_for_state_unique
    (request : Z -> result (gmap string (list station))) (fuel : nat)
    (stations : list station) (requested : list Z) :
  list_stations_for_state fuel request = (Some (Return stations), requested) ->
  exists n : nat,
    let rows := concat ((fun i => page request (offset_of i))
                          <$> seqZ 0 (Z.of_nat n)) in
    full_pages request n /\
    requested = offset_of <$> seqZ 0 (Z.of_nat n + 1) /\
    NoDup (id <$> stations) /\
    stations `sublist_of` rows /\
    forall k, head (filter (fun s => id s = k) stations)
              = head (filter (fun s => id s = k) rows).
Proof.
  unfold list_stations_for_state.
  destruct (paginate fuel request [] 1 []) as [[[rows|e]|] log] eqn:Hp;
    [|done..].
  intros [= <- <-]. change 1 with (offset_of 0) in Hp.
  apply paginate_Some in Hp as (n & Hn & Hf & Hlast & -> & Hr).
  exists n. rewrite Z.add_0_l in *.
  destruct (request (offset_of (Z.of_nat n))); [|done].
  injection Hr as ->. rewrite app_nil_l. cbv zeta.
  set (rows := concat _).
  assert (Hdd : (if is_nil rows then [] else drop_duplicates id rows)
                = drop_duplicates id rows) by (by destruct rows).
  rewrite Hdd. split_and!; [done | done | | |].
  - apply (drop_duplicates_from_NoDup id [] rows).
  - apply drop_duplicates_from_sublist.
  - intros k. unfold drop_duplicates.
    rewrite (drop_duplicates_from_filter id [] rows k).
    destruct (decide (k ∈ [])) as [H%elem_of_nil|_]; [done|].
    by destruct (filter _ rows).
Qed.

Lemma list_stations_for_state_unique_witness :
  exists n : nat,
    let rows := concat ((fun i => page ex_station_pages (offset_of i))
                          <$> seqZ 0 (Z.of_nat n)) in
    full_pages ex_station_pages n /\
    [1; 1001; 2001] = offset_of <$> seqZ 0 (Z.of_nat n + 1) /\
    NoDup (id <$> [ex_full; ex_usw_half; ex_nocov]) /\
    [ex_full; ex_usw_half; ex_nocov] `sublist_of` rows /\
    forall k, head (filter (fun s => id s = k)
                      [ex_full; ex_usw_half; ex_nocov])
              = head (filter (fun s => id s = k) rows).
Proof.
  refine (list_stations_for_state_unique ex_station_pages 4
            [ex_full; ex_usw_half; ex_nocov] [1; 1001; 2001] _).
  reflexivity.
Defined.

(** ** More on the selector *)

Lemma cov_max_fold_ub (l : list (option Q)) (acc : option Q) :
  let r := fold_left (fun acc c =>
               match acc, c with
               | Some m, Some q => Some (if Qle_bool q m then m else q)
               | None, Some q => Some q
               | _, None => acc
               end) l acc in
  forall q, Some q ∈ l \/ acc = Some q ->
            exists m, r = Some m /\ (q <= m)%Q.
Proof.
  cbv zeta. revert acc. induction l as [|c l IH]; intros acc q Hq.
  - destruct Hq as [Hq| ->]; [by apply elem_of_nil in Hq|].
    exists q. split; [done|]. apply Qle_refl.
  - simpl. destruct Hq as [Hq| ->];
      [apply elem_of_cons in Hq as [<-|Hq]|].
    + destruct acc as [m|].
      * destruct (Qle_bool q m) eqn:E.
        -- destruct (IH (Some m) m) as (m' & -> & Hm'); [by right|].
           exists m'. split; [done|]. apply Qle_bool_iff in E. lra.
        -- apply (IH (Some q) q). by right.
      * apply (IH (Some q) q). by right.
    + apply IH. by left.
    + destruct c as [c|]; [|apply IH; by right].
      destruct (Qle_bool c q) eqn:E; [apply IH; by right|].
      destruct (IH (Some c) c) as (m' & -> & Hm'); [by right|].
      exists m'. split; [done|].
      assert (~ (c <= q)%Q) by (rewrite <- Qle_bool_iff; congruence). lra.
Qed.

Lemma cov_max_ub (l : list (option Q)) (q : Q) :
  Some q ∈ l -> exists m, cov_max l = Some m /\ (q <= m)%Q.
Proof. intros Hq. apply (cov_max_fold_ub l None q). by left. Qed.

(** The pool [pick_representative_station] hands to [_select]: the
    near-complete candidates if there are any, else every candidate when no
    coverage is known, else the candidates within [tol] of the best
    coverage. *)
Lemma pick_representative_station_pool (stations : list station)
    (prefer : bool) :
  stations <> [] ->
  let cand := candidates stations prefer in
  let cov1 :=
    filter (fun s => cov_ge (datacoverage s) (1 - tol)%Q = true) cand in
  exists pool,
    pool <> [] /\
    pick_representative_station stations prefer = _select pool /\
    ((cov1 <> [] /\ pool = cov1)
     \/ (cov1 = [] /\ cov_max (datacoverage <$> cand) = None /\ pool = cand)
     \/ (cov1 = [] /\ exists m, cov_max (datacoverage <$> cand) = Some m /\
         pool = filter (fun s => cov_between (datacoverage s)
                                   (m - tol)%Q (m + tol)%Q = true) cand)).
Proof.
  intros Hne cand cov1. unfold pick_representative_station.
  apply is_nil_false in Hne as Hn. rewrite Hn. fold cand. fold cov1.
  destruct (is_nil cov1) eqn:E1; simpl.
  - apply is_nil_true in E1.
    destruct (cov_max (datacoverage <$> cand)) as [m|] eqn:Em.
    + eexists. split_and!; [|done|right; right; split; [done|by exists m]].
      apply cov_max_Some in Em as Hm.
      apply list_elem_of_fmap in Hm as (s & Es & Hs).
      intros Hnil.
      assert (s ∈ filter (fun s => cov_between (datacoverage s)
                            (m - tol)%Q (m + tol)%Q = true) cand) as Hs'.
      { apply list_elem_of_filter. split; [|done].
        rewrite <- Es. apply cov_between_self. }
      rewrite Hnil in Hs'. by apply elem_of_nil in Hs'.
    + exists cand. split_and!; [|done|right; by left].
      by apply candidates_nonempty.
  - apply is_nil_false in E1. exists cov1. split_and!; [done|done|by left].
Qed.

(** X9. [pick_representative_station]: with [prefer_usw] set and a USW
    station in the frame, the station selected is a USW station. *)
Theorem pick_prefers_usw (stations : list station) :
  (exists s, s ∈ stations /\ is_usw s = 1) ->
  exists w, pick_representative_station stations true = [w] /\
            w ∈ stations /\ is_usw w = 1.
Proof.
  intros (s & Hs & Hu).
  assert (stations <> []) as Hne by (intros ->; by apply elem_of_nil in Hs).
  destruct (pick_representative_station_pool stations true Hne)
    as (pool & Hpool & -> & Hcases).
  destruct (_select_spec pool Hpool) as (w & Hw & Hin & _).
  exists w. split; [done|].
  assert (w ∈ candidates stations true) as Hc.
  { destruct Hcases as [[_ ->]|[(_ & _ & ->)|(_ & m & _ & ->)]]; [|done|].
    - by apply list_elem_of_filter in Hin as [_ ?].
    - by apply list_elem_of_filter in Hin as [_ ?]. }
  split; [by apply candidates_subseteq in Hc|].
  unfold candidates in Hc.
  destruct (is_nil (filter (fun s => is_usw s = 1) stations)) eqn:E.
  - apply is_nil_true in E.
    assert (s ∈ filter (fun s => is_usw s = 1) stations) as Hs'
      by (by apply list_elem_of_filter).
    rewrite E in Hs'. by apply elem_of_nil in Hs'.
  - by apply list_elem_of_filter in Hc as [? _].
Qed.

Lemma pick_prefers_usw_witness :
  exists w, pick_representative_station [ex_full; ex_usw_half] true = [w] /\
            w ∈ [ex_full; ex_usw_half] /\ is_usw w = 1.
Proof.
  apply (pick_prefers_usw [ex_full; ex_usw_half]).
  exists ex_usw_half. split; [|reflexivity].
  apply elem_of_cons. right. apply elem_of_cons. by left.
Defined.



Lemma is_nil_Permutation {A} (l l' : list A) :
  l ≡ₚ l' -> is_nil l = is_nil l'.
Proof.
  intros Hp. destruct l as [|x l], l' as [|y l']; try done.
  - by apply Permutation_nil_cons in Hp.
  - symmetry in Hp. by apply Permutation_nil_cons in Hp.
Qed.

Lemma NoDup_fmap_eq {A B} (f : A -> B) (l : list A) (x y : A) :
  NoDup (f <$> l) -> x ∈ l -> y ∈ l -> f x = f y -> x = y.
Proof.
  induction l as [|a l IH]; intros Hnd Hx Hy Hf.
  - by apply elem_of_nil in Hx.
  - rewrite fmap_cons in Hnd. apply NoDup_cons in Hnd as [Ha Hnd].
    apply elem_of_cons in Hx as [->|Hx]; apply elem_of_cons in Hy as [->|Hy].
    + done.
    + destruct Ha. rewrite Hf. apply list_elem_of_fmap. by exists y.
    + destruct Ha. rewrite <- Hf. apply list_elem_of_fmap. by exists x.
    + by apply IH.
Qed.

Lemma select_leb_antisym (a b : station) :
  select_leb a b = true -> select_leb b a = true -> id a = id b.
Proof.
  unfold select_leb. rewrite !select_compare_key.
  rewrite (cmp_opp key_compare (select_key a) (select_key b)).
  destruct (key_compare (select_key a) (select_key b)) eqn:E; try done.
  intros _ _. apply (cmp_eq key_compare) in E.
  by injection E.
Qed.

Lemma _select_Permutation (df df' : list station) :
  NoDup (id <$> df) -> df ≡ₚ df' -> _select df = _select df'.
Proof.
  intros Hnd Hp. destruct df as [|x df].
  { apply Permutation_nil in Hp. by subst. }
  assert (df' <> []) as Hne'.
  { intros ->. symmetry in Hp. by apply Permutation_nil_cons in Hp. }
  destruct (_select_spec (x :: df)) as (w & -> & Hw & Hmin); [done|].
  destruct (_select_spec df' Hne') as (w' & -> & Hw' & Hmin').
  f_equal. apply (NoDup_fmap_eq id (x :: df)); [done|done| |].
  - by rewrite Hp.
  - apply select_leb_antisym.
    + apply Hmin. by rewrite Hp.
    + apply Hmin'. by rewrite <- Hp.
Qed.

Lemma cov_max_Permutation (l l' : list (option Q)) :
  l ≡ₚ l' ->
  match cov_max l, cov_max l' with
  | Some m, Some m' => (m == m')%Q
  | None, None => True
  | _, _ => False
  end.
Proof.
  intros Hp.
  destruct (cov_max l) as [m|] eqn:E, (cov_max l') as [m'|] eqn:E'.
  - apply cov_max_Some in E as Hm. apply cov_max_Some in E' as Hm'.
    rewrite Hp in Hm. rewrite <- Hp in Hm'.
    destruct (cov_max_ub l' m Hm) as (? & ? & Hle).
    destruct (cov_max_ub l m' Hm') as (? & ? & Hle').
    simplify_eq. lra.
  - apply cov_max_Some in E as Hm. rewrite Hp in Hm.
    destruct (cov_max_ub l' m Hm) as (? & ? & _). congruence.
  - apply cov_max_Some in E' as Hm. rewrite <- Hp in Hm.
    destruct (cov_max_ub l m' Hm) as (? & ? & _). congruence.
  - done.
Qed.

Lemma cov_between_Qeq (c : option Q) (m m' : Q) :
  (m == m')%Q ->
  cov_between c (m - tol)%Q (m + tol)%Q
  = cov_between c (m' - tol)%Q (m' + tol)%Q.
Proof.
  intros Hm. destruct c as [q|]; [|done]. simpl.
  apply eq_true_iff_eq. rewrite !andb_true_iff, !Qle_bool_iff.
  split; intros [? ?]; split; lra.
Qed.

Lemma candidates_Permutation (stations stations' : list station)
    (prefer : bool) :
  stations ≡ₚ stations' ->
  candidates stations prefer ≡ₚ candidates stations' prefer.
Proof.
  intros Hp. unfold candidates. destruct prefer; [|done].
  assert (filter (fun s => is_usw s = 1) stations
          ≡ₚ filter (fun s => is_usw s = 1) stations') as Hf by (by rewrite Hp).
  rewrite (is_nil_Permutation _ _ Hf). by destruct (is_nil _).
Qed.

Lemma candidates_sublist (stations : list station) (prefer : bool) :
  candidates stations prefer `sublist_of` stations.
Proof.
  unfold candidates. destruct prefer; [|done].
  destruct (is_nil _); [done|]. apply sublist_filter.
Qed.

(** X11. [pick_representative_station]: when the ids of the frame are
    distinct, as [list_stations_for_state] makes them, the station selected
    does not depend on the order of the rows. *)
Theorem pick_order_independent (stations stations' : list station)
    (prefer : bool) :
  NoDup (id <$> stations) -> stations ≡ₚ stations' ->
  pick_representative_station stations prefer
  = pick_representative_station stations' prefer.
Proof.
  intros Hnd Hp. unfold pick_representative_station.
  rewrite <- (is_nil_Permutation _ _ Hp).
  destruct (is_nil stations) eqn:En.
  { apply is_nil_true in En. subst. by apply Permutation_nil in Hp. }
  pose proof (candidates_Permutation _ _ prefer Hp) as Hc.
  assert (NoDup (id <$> candidates stations prefer)) as Hndc.
  { eapply sublist_NoDup; [exact Hnd|].
    apply fmap_sublist, candidates_sublist. }
  revert Hc Hndc.
  generalize (candidates stations prefer) (candidates stations' prefer).
  intros cand cand' Hc Hndc. cbv zeta.
  assert (Hsub : forall (P : station -> Prop) `{!forall s, Decision (P s)},
            NoDup (id <$> filter P cand)).
  { intros P HP. eapply sublist_NoDup; [exact Hndc|].
    apply fmap_sublist, sublist_filter. }
  assert (filter (fun s => cov_ge (datacoverage s) (1 - tol)%Q = true) cand
          ≡ₚ filter (fun s => cov_ge (datacoverage s) (1 - tol)%Q = true)
               cand') as H1 by (by rewrite Hc).
  rewrite <- (is_nil_Permutation _ _ H1).
  destruct (is_nil (filter _ cand)); simpl; [|by apply _select_Permutation].
  assert (datacoverage <$> cand ≡ₚ datacoverage <$> cand') as Hd
    by (by rewrite Hc).
  apply cov_max_Permutation in Hd.
  destruct (cov_max (datacoverage <$> cand)) as [m|],
           (cov_max (datacoverage <$> cand')) as [m'|]; try done.
  - apply _select_Permutation; [apply Hsub|]. rewrite Hc.
    erewrite (list_filter_iff _ (fun s => cov_between (datacoverage s)
                                  (m' - tol)%Q (m' + tol)%Q = true));
      [done|].
    intros s. by rewrite (cov_between_Qeq _ m m').
  - by apply _select_Permutation.
Qed.

Lemma pick_order_independent_witness :
  pick_representative_station [ex_tie_1; ex_tie_2; ex_usw_half] false
  = pick_representative_station [ex_usw_half; ex_tie_2; ex_tie_1] false.
Proof.
  apply (pick_order_independent [ex_tie_1; ex_tie_2; ex_usw_half]
                                [ex_usw_half; ex_tie_2; ex_tie_1] false).
  - apply (bool_decide_unpack _). by vm_compute.
  - exact (Permutation_rev [ex_tie_1; ex_tie_2; ex_usw_half]).
Defined.

(** ** The shape of the period table *)

Lemma date_leb_total (x y : date) :
  date_leb x y = true \/ date_leb y x = true.
Proof. date_arith. Qed.

Lemma date_leb_trans (x y z : date) :
  date_leb x y = true -> date_leb y z = true -> date_leb x z = true.
Proof. intros Hxy Hyz. date_arith. Qed.

Lemma date_leb_neq (x y : date) :
  date_leb x y = true -> x <> y -> date_lt x y.
Proof.
  intros Hxy Hne. destruct x as [y1 m1 d1], y as [y2 m2 d2].
  assert (~ (y1 = y2 /\ m1 = m2 /\ d1 = d2)) by (intros (-> & -> & ->); done).
  date_arith.
Qed.

Lemma sorted_NoDup_strict (l : list date) :
  sorted date_leb l -> NoDup l -> StronglySorted date_lt l.
Proof.
  unfold sorted. induction 1 as [|x l Hs IH Hx]; intros Hnd; [constructor|].
  apply NoDup_cons in Hnd as [Hx' Hnd]. constructor; [by apply IH|].
  apply Forall_forall. intros y Hy.
  apply date_leb_neq; [by eapply Forall_forall in Hx|].
  by intros ->.
Qed.

Lemma sorted_unique_strict (l : list date) :
  StronglySorted date_lt (sorted_unique date_leb l).
Proof.
  apply sorted_NoDup_strict; [|apply sorted_unique_NoDup].
  apply stable_sort_sorted; [apply date_leb_total | apply date_leb_trans].
Qed.

Lemma wide_of_index_sorted (agg : list Q -> Q) (d : list prow) :
  StronglySorted date_lt (w_index (wide_of agg d)).
Proof.
  unfold wide_of. destruct (is_nil d); [constructor|].
  apply sorted_unique_strict.
Qed.

Lemma merged_index_sorted (daily_df : list obs) (wanted_vars : list string)
    (f : freq) :
  StronglySorted date_lt (w_index (merged daily_df wanted_vars f)).
Proof.
  unfold merged. cbv zeta.
  destruct (w_is_empty _); [apply wide_of_index_sorted|].
  destruct (w_is_empty _); [apply wide_of_index_sorted|].
  apply sorted_unique_strict.
Qed.

(** X12. [daily_to_period_station]: the rows of the table come in strictly
    ascending order of their period. *)
Theorem daily_to_period_station_sorted (daily_df : list obs)
    (wanted_vars : list string) (f : freq) :
  StronglySorted date_lt
    ((fun r : date * list (option Q) => r.1)
       <$> pt_rows (daily_to_period_station daily_df wanted_vars f)).
Proof.
  destruct (daily_to_period_station_cases daily_df wanted_vars f)
    as [[_ ->]|[_ ->]]; [constructor|].
  rewrite reindex_columns_keys. apply merged_index_sorted.
Qed.

Lemma w_is_empty_false_columns (agg : list Q -> Q) (d : list prow) :
  w_is_empty (wide_of agg d) = true -> w_columns (wide_of agg d) = [].
Proof.
  rewrite wide_of_is_empty. intros Hd. unfold wide_of. by rewrite Hd.
Qed.

Lemma merged_columns (daily_df : list obs) (wanted_vars : list string)
    (f : freq) (c : string) :
  c ∈ w_columns (merged daily_df wanted_vars f)
  <-> c ∈ wanted_vars /\ c ∈ o_datatype <$> daily_df.
Proof.
  assert (Hk : c ∈ wanted_vars /\ c ∈ o_datatype <$> daily_df <->
               c ∈ (fun r : prow => o_datatype r.2)
                     <$> group_rows daily_df wanted_vars f is_sum_var \/
               c ∈ (fun r : prow => o_datatype r.2)
                     <$> group_rows daily_df wanted_vars f
                           (is_mean_var wanted_vars)).
  { split.
    - intros [Hw Hc]. apply list_elem_of_fmap in Hc as (o & -> & Ho).
      assert ((period_start f (o_date o), o) ∈ kept daily_df wanted_vars f)
        as Hr by (by apply elem_of_kept).
      apply kept_split in Hr as [Hr|Hr]; [left|right];
        apply list_elem_of_fmap;
        by exists (period_start f (o_date o), o).
    - intros [Hc|Hc]; apply list_elem_of_fmap in Hc as (r & -> & Hr).
      + assert (r ∈ kept daily_df wanted_vars f) as Hk
          by (apply kept_split; by left).
        apply elem_of_kept in Hk as (Ho & Hw & _). split; [done|].
        apply list_elem_of_fmap. by exists r.2.
      + assert (r ∈ kept daily_df wanted_vars f) as Hk
          by (apply kept_split; by right).
        apply elem_of_kept in Hk as (Ho & Hw & _). split; [done|].
        apply list_elem_of_fmap. by exists r.2. }
  rewrite Hk. unfold merged. cbv zeta.
  rewrite <- (wide_of_columns Qsum
                 (group_rows daily_df wanted_vars f is_sum_var) c).
  rewrite <- (wide_of_columns Qmean
                 (group_rows daily_df wanted_vars f
                    (is_mean_var wanted_vars)) c).
  destruct (w_is_empty (wide_of Qsum _)) eqn:Es.
  { rewrite (w_is_empty_false_columns _ _ Es), elem_of_nil. tauto. }
  destruct (w_is_empty (wide_of Qmean _)) eqn:Em.
  { rewrite (w_is_empty_false_columns _ _ Em), elem_of_nil. tauto. }
  simpl. rewrite elem_of_app. tauto.
Qed.

Lemma filter_iff_in {A} (P1 P2 : A -> Prop) `{!forall x, Decision (P1 x)}
    `{!forall x, Decision (P2 x)} (l : list A) :
  (forall x, x ∈ l -> P1 x <-> P2 x) -> filter P1 l = filter P2 l.
Proof.
  induction l as [|x l IH]; intros Hiff; [done|].
  rewrite !filter_cons, IH by (intros y Hy; apply Hiff; by right).
  assert (P1 x <-> P2 x) as Hx by (apply Hiff; by left).
  destruct (decide (P1 x)) as [H1|H1], (decide (P2 x)) as [H2|H2];
    try done; tauto.
Qed.

(** X13. [daily_to_period_station]: the header of the table is the label
    of the period followed by the requested variables that occur in the
    daily frame, in the order of the request; a requested variable without
    an observation gets no column.  Every row has one cell per variable
    column, and the table is empty exactly when no requested variable
    occurs. *)
Theorem daily_to_period_station_columns (daily_df : list obs)
    (wanted_vars : list string) (f : freq) :
  let t := daily_to_period_station daily_df wanted_vars f in
  let present :=
    filter (fun v => v ∈ o_datatype <$> daily_df) wanted_vars in
  (present = [] -> t = empty_table) /\
  (present <> [] ->
   pt_columns t = label_col f :: present /\
   pt_rows t <> [] /\
   forall r, r ∈ pt_rows t -> length r.2 = length present).
Proof.
  intros t present. subst t.
  assert (Hkept : kept daily_df wanted_vars f = [] <-> present = []).
  { split; intros Hnil.
    - destruct present as [|v l] eqn:E; [done|].
      assert (v ∈ present) as Hv by (rewrite E; by left).
      apply list_elem_of_filter in Hv as [Hd Hw].
      apply list_elem_of_fmap in Hd as (o & -> & Ho).
      assert ((period_start f (o_date o), o) ∈ kept daily_df wanted_vars f)
        as Hr by (by apply elem_of_kept).
      rewrite Hnil in Hr. by apply elem_of_nil in Hr.
    - destruct (kept daily_df wanted_vars f) as [|r l] eqn:E; [done|].
      assert (r ∈ kept daily_df wanted_vars f) as Hr by (rewrite E; by left).
      apply elem_of_kept in Hr as (Ho & Hw & _).
      assert (o_datatype r.2 ∈ present) as Hv.
      { apply list_elem_of_filter. split; [|done].
        apply list_elem_of_fmap. by exists r.2. }
      rewrite Hnil in Hv. by apply elem_of_nil in Hv. }
  destruct (daily_to_period_station_cases daily_df wanted_vars f)
    as [[Hk ->]|[Hk ->]].
  - split; [done|]. intros Hp. by apply Hkept in Hk.
  - split; [intros Hp; by apply Hkept in Hp|]. intros _.
    assert (filter (fun v => v ∈ w_columns (merged daily_df wanted_vars f))
                   wanted_vars = present) as Hvars.
    { apply filter_iff_in. intros v Hv. rewrite merged_columns. tauto. }
    unfold reindex_columns. cbv zeta. rewrite Hvars. simpl.
    split_and!; [done | |].
    + intros Hnil. apply fmap_nil_inv in Hnil.
      destruct (kept daily_df wanted_vars f) as [|r l] eqn:E; [done|].
      assert (r.1 ∈ w_index (merged daily_df wanted_vars f)) as Hr.
      { apply merged_index, kept_periods. apply list_elem_of_fmap.
        exists r. split; [done|]. rewrite E. by left. }
      rewrite Hnil in Hr. by apply elem_of_nil in Hr.
    + intros r Hr. apply list_elem_of_fmap in Hr as (p & -> & _).
      simpl. by rewrite length_fmap.
Qed.

(** ** Weekly buckets are whole weeks *)

Lemma week_start_unique (s s' u : Z) :
  s <= u < s + 7 -> (s + 3) mod 7 = 1 ->
  s' <= u < s' + 7 -> (s' + 3) mod 7 = 1 -> s = s'.
Proof. intros. Z.div_mod_to_equations. lia. Qed.

Lemma week_period_start_unix (d : date) :
  exists s, period_start weekly d = date_of_unix s /\
            s <= unix_date d < s + 7 /\ (s + 3) mod 7 = 1.
Proof.
  destruct (week_start_W_MON (unix_date d)) as [Hrange Htue].
  by exists (asfreq_WtoDT (unix_date_to_week (unix_date d) W_MON) W_MON 0).
Qed.

(** X14. [daily_to_period_station], weekly: the dates that share the
    bucket of a date are the seven days from the bucket's label on, and the
    label lies in its own bucket. *)
Theorem weekly_bucket_members (d d' : date) :
  7 <= toordinal d -> 7 <= toordinal d' ->
  let b := period_start weekly d in
  (period_start weekly d' = b
   <-> toordinal b <= toordinal d' <= toordinal b + 6) /\
  period_start weekly b = b.
Proof.
  intros Hd Hd' b. subst b.
  destruct (week_period_start_unix d) as (s & -> & Hr & Hm).
  destruct (week_period_start_unix d') as (s' & -> & Hr' & Hm').
  assert (unix_date (date_of_unix s) = s) as Hs.
  { apply unix_date_of_unix. unfold unix_date, UNIX_EPOCH_ORDINAL in *. lia. }
  assert (unix_date (date_of_unix s') = s') as Hs'.
  { apply unix_date_of_unix. unfold unix_date, UNIX_EPOCH_ORDINAL in *. lia. }
  assert (toordinal (date_of_unix s) = s + UNIX_EPOCH_ORDINAL) as Hb
    by (unfold unix_date in Hs; lia).
  rewrite Hb. split.
  - split.
    + intros Heq. assert (s' = s) as -> by congruence.
      unfold unix_date in Hr'. lia.
    + intros Hin. f_equal. apply (week_start_unique s' s (unix_date d'));
        [done | done | unfold unix_date; lia | done].
  - destruct (week_period_start_unix (date_of_unix s))
      as (s2 & -> & Hr2 & Hm2).
    f_equal. rewrite Hs in Hr2.
    apply (week_start_unique s2 s s); [done | done | lia | done].
Qed.

Lemma weekly_bucket_members_witness :
  (period_start weekly (mkdate 2024 1 8) = period_start weekly (mkdate 2024 1 3)
   <-> toordinal (mkdate 2024 1 2) <= toordinal (mkdate 2024 1 8)
       <= toordinal (mkdate 2024 1 2) + 6) /\
  period_start weekly (mkdate 2024 1 2) = mkdate 2024 1 2.
Proof.
  apply (weekly_bucket_members (mkdate 2024 1 3) (mkdate 2024 1 8));
    by vm_compute.
Defined.

(** ** More on the per-region body of [main] *)

Lemma pick_representative_station_nonempty (stations : list station)
    (prefer : bool) :
  stations <> [] ->
  exists sel, pick_representative_station stations prefer = [sel].
Proof.
  intros Hne.
  destruct (pick_representative_station_pool stations prefer Hne)
    as (pool & Hpool & -> & _).
  destruct (_select_spec pool Hpool) as (w & Hw & _). by exists w.
Qed.

Section region_more.
Context (list_stations_for_state :
           string -> list string -> result (list station))
        (fetch_station_year :
           string -> date -> date -> list string -> result (list obs))
        (year_slices_NaT : result (list (date * date)))
        (a : args) (fips : string).

Lemma aggregate_and_write_status (daily_df : list obs) (w : world) :
  let st := (aggregate_and_write a fips daily_df w).1 in
  st = NoDaily \/ st = AggEmpty \/ st = Done.
Proof.
  unfold aggregate_and_write.
  destruct (is_nil daily_df); [by left|].
  destruct (pt_is_empty _); [right; by left | right; by right].
Qed.


(** X15. The per-region body of [main]: a non-empty station list always
    yields one selected station, written to the selected-station file right
    after the station list; the exit for an empty selection is never
    taken. *)
Theorem region_always_selects (w : world) :
  let r := process_region list_stations_for_state fetch_station_year
                          year_slices_NaT a fips w in
  r.1 <> NoRepresentative /\
  forall stations,
    list_stations_for_state fips (vars a) = Return stations ->
    stations <> [] ->
    exists sel rest,
      pick_representative_station stations (prefer_usw a) = [sel] /\
      written r.2
      = written w ++ (meta_path a fips, StationsCsv stations)
                  :: (rep_path a fips, SelectedCsv [sel]) :: rest.
Proof.
  unfold process_region.
  destruct (list_stations_for_state fips (vars a)) as [stations|e] eqn:El.
  2:{ split; [by destruct (is_exception e)|]. by intros stations [=]. }
  destruct (is_nil stations) eqn:En.
  { apply is_nil_true in En. split; [done|]. by intros ? [= <-]. }
  apply is_nil_false in En.
  destruct (pick_representative_station_nonempty stations (prefer_usw a) En)
    as (sel & Hsel).
  rewrite Hsel. cbv zeta.
  set (w2 := to_csv (rep_path a fips) (SelectedCsv [sel])
               (to_csv (meta_path a fips) (StationsCsv stations) w)).
  assert (written w2 = written w ++
            [(meta_path a fips, StationsCsv stations);
             (rep_path a fips, SelectedCsv [sel])]) as Hw2.
  { unfold w2. rewrite !to_csv_written. by rewrite <- app_assoc. }
  assert (Hrest : forall new : list (string * file),
            (written w ++
               [(meta_path a fips, StationsCsv stations);
                (rep_path a fips, SelectedCsv [sel])]) ++ new
            = written w ++ (meta_path a fips, StationsCsv stations)
                        :: (rep_path a fips, SelectedCsv [sel]) :: new).
  { intros new. by rewrite <- app_assoc. }
  cut ((fetch_and_aggregate fetch_station_year year_slices_NaT a fips sel
          w2).1 <> NoRepresentative /\
       exists rest,
         written (fetch_and_aggregate fetch_station_year year_slices_NaT a
                    fips sel w2).2 = written w2 ++ rest).
  { intros [Hs (rest & Hr)]. split; [done|]. intros ? [= <-] _.
    exists sel, rest. split; [done|]. by rewrite Hr, Hw2, Hrest. }
  unfold fetch_and_aggregate.
  destruct (match mindate sel, maxdate sel with
            | Some mind, Some maxd =>
                Return (year_slices (Some mind) (Some maxd))
            | _, _ => year_slices_NaT
            end) as [slices|e].
  2:{ simpl. split; [done|]. exists []. by rewrite app_nil_r. }
  destruct (fetch_loop_written fetch_station_year a fips sel slices [] [] w2)
    as (new & Hnew & _).
  destruct (fetch_loop _ _ _ _ _ _ _ _) as [[[paths parts]|e] w3]; simpl in *.
  2:{ split; [done|]. by exists new. }
  pose proof (aggregate_and_write_status (merge_daily a paths parts w3) w3)
    as Hst.
  split.
  { intros Heq. cbv zeta in Hst. rewrite Heq in Hst.
    by destruct Hst as [?|[?|?]]. }
  unfold aggregate_and_write.
  destruct (is_nil _); [by exists new|].
  destruct (pt_is_empty _); [by exists new|].
  eexists. simpl. by rewrite Hnew, <- app_assoc.
Qed.






(** X19. The year loop of [main], without [--resume], when no request
    raises anything but an [Exception]: the frames handed to the aggregator
    are the non-empty frames of the years whose request succeeded, in year
    order; a year whose request fails is skipped and the others are kept.
    With [--save_raw] every frame returned, empty or not, is written to
    the file of its year, in year order; without it nothing is written. *)
Theorem fetch_loop_no_resume_closed (sel : station)
    (slices : list (date * date)) (paths : list string)
    (parts : list (list obs)) (w : world) :
  resume a = false ->
  (forall (s : date * date) e, s ∈ slices ->
     fetch_station_year (id sel) s.1 s.2 (vars a) = Raise e ->
     is_exception e = true) ->
  let got := fetched fetch_station_year a sel slices in
  let path_of := fun x : (date * date) * list obs =>
                   part_path a fips sel (year x.1.1) in
  fetch_loop fetch_station_year a fips sel slices paths parts w
  = (Return (paths ++ (if save_raw a then path_of <$> got else []),
             parts ++ filter (fun df => df <> []) (snd <$> got)),
     if save_raw a
     then foldl (fun w x => to_csv (path_of x) (DailyCsv x.2) w) w got
     else w).
Proof.
  intros Hres Hexc. cbv zeta. revert paths parts w.
  induction slices as [|[ys ye] rest IH]; intros paths parts w.
  - unfold fetched. simpl. destruct (save_raw a); by rewrite !app_nil_r.
  - simpl fetch_loop. rewrite Hres. simpl andb. cbv iota.
    assert (IH' := IH (fun s e Hs =>
                         Hexc s e (proj2 (elem_of_cons _ _ _) (or_intror Hs)))).
    clear IH. unfold fetched in *. simpl omap.
    destruct (fetch_station_year (id sel) ys ye (vars a)) as [df|e] eqn:Ef.
    + simpl. destruct df as [|o df]; simpl is_nil; cbv iota.
      * destruct (save_raw a) eqn:Eraw.
        -- rewrite IH', ?Eraw. simpl.
           rewrite filter_cons_False by (by intros ?).
           by rewrite <- app_assoc.
        -- rewrite IH', ?Eraw. simpl.
           by rewrite filter_cons_False by (by intros ?).
      * destruct (save_raw a) eqn:Eraw.
        -- rewrite IH', ?Eraw. simpl.
           rewrite filter_cons_True by done.
           by rewrite <- !app_assoc.
        -- rewrite IH', ?Eraw. simpl.
           rewrite filter_cons_True by done.
           by rewrite <- !app_assoc.
    + rewrite (Hexc (ys, ye) e) by (by left || done). simpl. apply IH'.
Qed.
End region_more.





Lemma fetch_loop_no_resume_closed_witness :
  let got := fetched ex_fetch_tmax ex_args ex_station_2002
               [(mkdate 2002 1 1, mkdate 2002 1 11)] in
  let path_of := fun x : (date * date) * list obs =>
                   part_path ex_args "01" ex_station_2002 (year x.1.1) in
  fetch_loop ex_fetch_tmax ex_args "01" ex_station_2002
             [(mkdate 2002 1 1, mkdate 2002 1 11)] [] [] ex_world
  = (Return ([] ++ (if save_raw ex_args then path_of <$> got else []),
             [] ++ filter (fun df => df <> []) (snd <$> got)),
     if save_raw ex_args
     then foldl (fun w x => to_csv (path_of x) (DailyCsv x.2) w) ex_world got
     else ex_world).
Proof.
  apply (fetch_loop_no_resume_closed ex_fetch_tmax ex_args "01"
           ex_station_2002 [(mkdate 2002 1 1, mkdate 2002 1 11)] [] []
           ex_world).
  - reflexivity.
  - intros s e _ He. discriminate He.
Defined.

(** ** The number of year slices *)

Lemma slice_of_year_years (start end_ : date) (y : Z) :
  year (slice_of_year start end_ y).1 = y /\
  year (slice_of_year start end_ y).2 = y.
Proof.
  unfold slice_of_year. cbv zeta. simpl.
  destruct (Z.eqb_spec y (year start)), (Z.eqb_spec y (year end_)); by simpl.
Qed.

(** X20. [year_slices]: whatever the two dates, there are at most 24
    slices, one per calendar year, each within one year of 2002-2025 and no
    two in the same year. *)
Theorem year_slices_bounded (mind maxd : option date) :
  let sl := year_slices mind maxd in
  (length sl <= 24)%nat /\
  NoDup ((fun s : date * date => year s.1) <$> sl) /\
  forall s : date * date,
    s ∈ sl -> year s.1 = year s.2 /\ 2002 <= year s.1 <= 2025.
Proof.
  cbv zeta.
  destruct mind as [mind|], maxd as [maxd|];
    try (split_and!; [simpl; lia | constructor |
                      by intros s Hs%elem_of_nil]).
  rewrite year_slices_unfold. cbv zeta.
  set (start := date_max mind start_limit).
  set (end_ := date_min maxd end_limit).
  assert (2002 <= year start) as Hs.
  { unfold start, date_max. destruct (date_ltb mind start_limit) eqn:E;
      [done|]. apply date_ltb_false, date_leb_spec in E. simpl in E. lia. }
  assert (year end_ <= 2025) as He.
  { unfold end_, date_min. destruct (date_ltb end_limit maxd) eqn:E;
      [done|]. apply date_ltb_false, date_leb_spec in E. simpl in E. lia. }
  clearbody start end_.
  destruct (date_ltb maxd mind || date_ltb end_ start) eqn:E.
  { split_and!; [simpl; lia | constructor | by intros s Hs'%elem_of_nil]. }
  apply orb_false_iff in E as [_ E].
  apply date_ltb_false, date_leb_spec in E.
  split_and!.
  - rewrite length_fmap, length_seqZ. lia.
  - rewrite <- list_fmap_compose.
    assert (forall l : list Z,
              (fun s : date * date => year s.1) ∘ slice_of_year start end_
                <$> l = l) as ->.
    { induction l as [|y l IH]; [done|]. rewrite fmap_cons, IH. f_equal.
      apply slice_of_year_years. }
    apply NoDup_seqZ.
  - intros s Hin. apply list_elem_of_fmap in Hin as (y & -> & Hy).
    apply elem_of_seqZ in Hy.
    destruct (slice_of_year_years start end_ y) as [-> ->]. lia.
Qed.
